(** * TensorVis.coords: coordinate and delay transforms

    A shallow embedding of [TensorVis/coords.py]: the conversion of
    equatorial coordinates to topocentric cosines, to azimuth and zenith
    angle, and to per-antenna geometric delays.

    Numbers.  The source computes on float64 tensors.  Here an element of a
    tensor is a real number or [None]; [None] stands for a result that is not
    a finite number (the NaN that a division by zero, a square root of a
    negative number, or an arcsine outside [-1, 1] produces and that every
    later operation propagates).  Arithmetic on the finite values is exact
    real arithmetic: rounding, overflow and signed zeros are not modelled,
    so equalities proved here hold in float64 up to rounding only.

    Tensors.  A tensor of rank [n] is an [n]-fold nested list.  Elementwise
    operations truncate to the shorter operand where TensorFlow would refuse
    operands of different shapes; the theorems state the shapes they need. *)

From Stdlib Require Import Reals Lra List.
Import ListNotations.
Open Scope R_scope.

(** ** Scalars *)

Definition scalar : Type := option R.

Definition lift1 (f : R -> R) (x : scalar) : scalar :=
  match x with Some a => Some (f a) | None => None end.

Definition lift2 (f : R -> R -> R) (x y : scalar) : scalar :=
  match x, y with
  | Some a, Some b => Some (f a b)
  | _, _ => None
  end.

Definition fadd : scalar -> scalar -> scalar := lift2 Rplus.
Definition fsub : scalar -> scalar -> scalar := lift2 Rminus.
Definition fmul : scalar -> scalar -> scalar := lift2 Rmult.
Definition fneg : scalar -> scalar := lift1 Ropp.
Definition fsin : scalar -> scalar := lift1 sin.
Definition fcos : scalar -> scalar := lift1 cos.

(** [x ** 2.] *)
Definition fsqr : scalar -> scalar := lift1 (fun a => a ^ 2).

(** [x / y]: not a finite number when the divisor is zero. *)
Definition fdiv (x y : scalar) : scalar :=
  match x, y with
  | Some a, Some b => if Req_EM_T b 0 then None else Some (a / b)
  | _, _ => None
  end.

(** [tf.math.sqrt]: NaN on a negative argument. *)
Definition fsqrt (x : scalar) : scalar :=
  match x with
  | Some a => if Rle_dec 0 a then Some (sqrt a) else None
  | None => None
  end.

(** [tf.math.asin] and [tf.math.acos]: NaN outside [-1, 1]. *)
Definition in_unit (a : R) : bool :=
  if Rle_dec (-1) a then (if Rle_dec a 1 then true else false) else false.

Definition fasin (x : scalar) : scalar :=
  match x with
  | Some a => if in_unit a then Some (asin a) else None
  | None => None
  end.

Definition facos (x : scalar) : scalar :=
  match x with
  | Some a => if in_unit a then Some (acos a) else None
  | None => None
  end.

(** The two-argument arctangent, the angle of the point [(x, y)] in
    (-PI, PI], with [atan2 0 0 = 0]. *)
Definition atan2 (y x : R) : R :=
  if Rlt_dec 0 x then atan (y / x)
  else if Rlt_dec x 0 then
    (if Rle_dec 0 y then atan (y / x) + PI else atan (y / x) - PI)
  else if Rlt_dec 0 y then PI / 2
  else if Rlt_dec y 0 then - (PI / 2)
  else 0.

Definition fatan2 : scalar -> scalar -> scalar := lift2 atan2.

(** [tf.math.sign]: -1, 0 or 1. *)
Definition sign (a : R) : R :=
  if Rlt_dec 0 a then 1 else if Rlt_dec a 0 then -1 else 0.

Definition fsign : scalar -> scalar := lift1 sign.

(** [x < y]: false as soon as one side is not a number. *)
Definition flt (x y : scalar) : bool :=
  match x, y with
  | Some a, Some b => if Rlt_dec a b then true else false
  | _, _ => false
  end.

(** ** Module constants *)

(** The default of the [latitude] arguments; the functions below take the
    latitude explicitly. *)
Definition HERA_LATITUDE : scalar := Some (- (5361917991288512 / 10000000000000000)).

(** Speed of light in m/s. *)
Definition C : scalar := Some 299792458.

Definition PI : scalar := Some Rtrigo1.PI.

Abbreviation RPI := Rtrigo1.PI.

(** ** Tensors *)

Fixpoint tensor (A : Type) (n : nat) : Type :=
  match n with
  | O => A
  | S k => list (tensor A k)
  end.

Fixpoint map2 {A B D : Type} (f : A -> B -> D) (xs : list A) (ys : list B) : list D :=
  match xs, ys with
  | x :: xs', y :: ys' => f x y :: map2 f xs' ys'
  | _, _ => []
  end.

Fixpoint tmap {A B : Type} (n : nat) (f : A -> B) : tensor A n -> tensor B n :=
  match n with
  | O => f
  | S k => map (tmap k f)
  end.

Fixpoint tmap2 {A B D : Type} (n : nat) (f : A -> B -> D)
  : tensor A n -> tensor B n -> tensor D n :=
  match n with
  | O => f
  | S k => map2 (tmap2 k f)
  end.

(** [tf.stack], along axis 0. *)
Definition tf_stack {A : Type} {n : nat} (ts : list (tensor A n)) : tensor A (S n) := ts.

Definition tf_zeros_like (n : nat) (t : tensor scalar n) : tensor scalar n :=
  tmap n (fun _ => Some 0) t.

Definition tf_ones_like (n : nat) (t : tensor scalar n) : tensor scalar n :=
  tmap n (fun _ => Some 1) t.

(** Elementwise functions and operators. *)
Definition tf_sin (n : nat) : tensor scalar n -> tensor scalar n := tmap n fsin.
Definition tf_cos (n : nat) : tensor scalar n -> tensor scalar n := tmap n fcos.
Definition tf_sqrt (n : nat) : tensor scalar n -> tensor scalar n := tmap n fsqrt.
Definition tf_asin (n : nat) : tensor scalar n -> tensor scalar n := tmap n fasin.
Definition tf_acos (n : nat) : tensor scalar n -> tensor scalar n := tmap n facos.
Definition tf_sign (n : nat) : tensor scalar n -> tensor scalar n := tmap n fsign.
Definition tf_atan2 (n : nat) : tensor scalar n -> tensor scalar n -> tensor scalar n :=
  tmap2 n fatan2.
Definition tneg (n : nat) : tensor scalar n -> tensor scalar n := tmap n fneg.
Definition tsqr (n : nat) : tensor scalar n -> tensor scalar n := tmap n fsqr.
Definition tadd (n : nat) : tensor scalar n -> tensor scalar n -> tensor scalar n :=
  tmap2 n fadd.
Definition tsub (n : nat) : tensor scalar n -> tensor scalar n -> tensor scalar n :=
  tmap2 n fsub.
Definition tmul (n : nat) : tensor scalar n -> tensor scalar n -> tensor scalar n :=
  tmap2 n fmul.
Definition tdiv (n : nat) : tensor scalar n -> tensor scalar n -> tensor scalar n :=
  tmap2 n fdiv.

(** Operators with one rank-0 operand, broadcast over the other. *)
Definition smul (n : nat) (s : scalar) (t : tensor scalar n) : tensor scalar n :=
  tmap n (fmul s) t.
Definition tmuls (n : nat) (t : tensor scalar n) (s : scalar) : tensor scalar n :=
  tmap n (fun x => fmul x s) t.
Definition ssub (n : nat) (s : scalar) (t : tensor scalar n) : tensor scalar n :=
  tmap n (fsub s) t.
Definition tdivs (n : nat) (t : tensor scalar n) (s : scalar) : tensor scalar n :=
  tmap n (fun x => fdiv x s) t.
Definition tlts (n : nat) (t : tensor scalar n) (s : scalar) : tensor bool n :=
  tmap n (fun x => flt x s) t.

(** [tf.where cond x y] with a rank-0 [y]. *)
Definition tf_where (n : nat) (cond : tensor bool n) (x : tensor scalar n) (y : scalar)
  : tensor scalar n :=
  tmap2 n (fun (c : bool) v => if c then v else y) cond x.

(** ** Tensor contraction *)

Fixpoint transpose {A : Type} (m : list (list A)) : list (list A) :=
  match m with
  | [] => []
  | r :: rest =>
      match rest with
      | [] => map (fun x => [x]) r
      | _ :: _ => map2 cons r (transpose rest)
      end
  end.

(** Sum of products, accumulated from zero. *)
Fixpoint dot (u v : list scalar) : scalar :=
  match u, v with
  | a :: u', b :: v' => fadd (fmul a b) (dot u' v')
  | _, _ => Some 0
  end.

(** [contract n row b] is the sum over [k] of [row[k] * b[k]], for [b] of
    shape (K, ...): the contracted axis is moved inwards, one axis at a
    time, down to rank 0. *)
Fixpoint contract (n : nat) (row : list scalar) : list (tensor scalar n) -> tensor scalar n :=
  match n with
  | O => fun b => dot row b
  | S k => fun b => map (contract k row) (transpose b)
  end.

(** Contraction of the last axis of [a] with the first axis of [b]. *)
Fixpoint contract_last (m n : nat)
  : tensor scalar (S m) -> list (tensor scalar n) -> tensor scalar (m + n) :=
  match m with
  | O => fun a b => contract n a b
  | S k => fun a b => map (fun ai => contract_last k n ai b) a
  end.

(** Axis 0 of a tensor moved to the last position. *)
Fixpoint axis0_to_last (m : nat) : tensor scalar (S m) -> tensor scalar (S m) :=
  match m with
  | O => fun a => a
  | S k => fun a => map (axis0_to_last k) (transpose a)
  end.

(** [tf.tensordot a b axes=[[1],[0]]] (also written [axes=[1,0]]): axis 1 of
    [a] is contracted with axis 0 of [b]; the free axes of [a] come first
    in the result, then those of [b]. *)
Definition tensordot_1_0 (m n : nat) (a : tensor scalar (S (S m))) (b : tensor scalar (S n))
  : tensor scalar (S m + n) :=
  contract_last (S m) n (map (axis0_to_last m) a) b.

(** ** The transforms *)

Definition equatorial_to_topocentric (ra dec lst : tensor scalar 1) (latitude : scalar)
  : tensor scalar 3 :=
  let eq_coords : tensor scalar 2 :=
    tf_stack [ tmul 1 (tf_cos 1 ra) (tf_cos 1 dec);
               tmul 1 (tf_cos 1 dec) (tf_sin 1 ra);
               tf_sin 1 dec ] in
  let topo_coords : tensor scalar 3 :=
    tf_stack
      [ tf_stack [ tneg 1 (tf_sin 1 lst);
                   tf_cos 1 lst;
                   tf_zeros_like 1 lst ];
        tf_stack [ smul 1 (fneg (fsin latitude)) (tf_cos 1 lst);
                   smul 1 (fneg (fsin latitude)) (tf_sin 1 lst);
                   smul 1 (fcos latitude) (tf_ones_like 1 lst) ];
        tf_stack [ smul 1 (fcos latitude) (tf_cos 1 lst);
                   smul 1 (fcos latitude) (tf_sin 1 lst);
                   smul 1 (fsin latitude) (tf_ones_like 1 lst) ] ] in
  tensordot_1_0 1 1 topo_coords eq_coords.

Definition topocentric_to_az_za (n : nat) (l m : tensor scalar n)
  : tensor scalar n * tensor scalar n :=
  let lsqr := tadd n (tsqr n l) (tsqr n m) in
  let n' := tf_where n (tlts n lsqr (Some 1)) (tf_sqrt n (ssub n (Some 1) lsqr)) (Some 0) in
  let az := tneg n (tf_atan2 n m l) in
  let za := ssub n (fdiv PI (Some 2)) (tf_asin n n') in
  (az, za).

Definition topocentric_to_delay (n : nat) (topo_cosines : tensor scalar (S n))
  (antpos : tensor scalar 2) : tensor scalar (S n) :=
  tdivs (S n) (tensordot_1_0 0 n antpos topo_cosines) C.

(** Returns (za, az), in that order.  On exact reals the two divisors
    vanish, or an arcsine or arccosine argument reaches 1 or -1, only at
    the zenith, on the local meridian, due east or west, and at the poles;
    on those inputs float64 rounding, which this model leaves out, decides
    whether the azimuth is a number. *)
Definition eq_to_az_za (n : nat) (ra dec lst : tensor scalar n) (latitude : scalar)
  : tensor scalar n * tensor scalar n :=
  let lat := latitude in
  let sin_alt := tadd n (tmuls n (tf_sin n dec) (fsin lat))
                        (tmul n (tmuls n (tf_cos n dec) (fcos lat))
                                (tf_cos n (tsub n lst ra))) in
  let alt := tf_asin n sin_alt in
  let sin_az := tdiv n (tmul n (tf_sin n (tsub n ra lst)) (tf_cos n dec)) (tf_cos n alt) in
  let cos_az := tdiv n (tsub n (tf_sin n dec) (smul n (fsin lat) sin_alt))
                       (smul n (fcos lat) (tf_cos n alt)) in
  (ssub n (Some (0.5 * RPI)) alt,
   tmul n (tf_sign n (tf_asin n sin_az)) (tf_acos n cos_az)).

Definition az_za_to_delay (n : nat) (az za : tensor scalar n) (antpos : tensor scalar 2)
  : tensor scalar (S n) :=
  let alt := ssub n (Some (RPI / 2)) za in
  let coord_proj : tensor scalar (S n) :=
    tf_stack [ tmul n (tneg n (tf_sin n az)) (tf_cos n alt);
               tmul n (tf_cos n az) (tf_cos n alt);
               tf_sin n alt ] in
  tdivs (S n) (tensordot_1_0 0 n antpos coord_proj) C.

(** ** What the specification says, over the reals *)

(** The unit equatorial position vector of a source. *)
Definition e_vec (ra dec : R) : list R :=
  [cos ra * cos dec; cos dec * sin ra; sin dec].

(** The projection matrix, row by row. *)
Definition P_mat (lst lat : R) : list (list R) :=
  [ [- sin lst; cos lst; 0];
    [- sin lat * cos lst; - sin lat * sin lst; cos lat];
    [cos lat * cos lst; cos lat * sin lst; sin lat] ].

Fixpoint rdot (u v : list R) : R :=
  match u, v with
  | a :: u', b :: v' => a * b + rdot u' v'
  | _, _ => 0
  end.

Definition mat_vec (M : list (list R)) (v : list R) : list R :=
  map (fun row => rdot row v) M.

(** [P(lst, lat) . e], every LST combined with every source: the entry at
    (i, t, s) is component [i] of [P(lst_t, lat) . e(ra_s, dec_s)]. *)
Definition P_dot_e (ra dec lst : list R) (lat : R) : list (list (list R)) :=
  map (fun i : nat =>
         map (fun t =>
                map (fun p => nth i (mat_vec (P_mat t lat) (e_vec (fst p) (snd p))) 0)
                    (combine ra dec))
             lst)
      [0%nat; 1%nat; 2%nat].

(** The clipped third cosine of section 4.2. *)
Definition n_clip (l m : R) : R :=
  let lsqr := l ^ 2 + m ^ 2 in
  if Rlt_dec lsqr 1 then sqrt (1 - lsqr) else 0.

(** Azimuth and zenith angle of section 4.2. *)
Definition az_za_spec (l m : R) : R * R :=
  (- atan2 m l, RPI / 2 - asin (n_clip l m)).

(** The legacy altitude/azimuth formulas of section 4.5. *)
Definition sin_alt_spec (ra dec lst lat : R) : R :=
  sin dec * sin lat + cos dec * cos lat * cos (lst - ra).

Definition alt_spec (ra dec lst lat : R) : R :=
  asin (sin_alt_spec ra dec lst lat).

Definition sin_az_spec (ra dec lst lat : R) : R :=
  sin (ra - lst) * cos dec / cos (alt_spec ra dec lst lat).

Definition cos_az_spec (ra dec lst lat : R) : R :=
  (sin dec - sin lat * sin_alt_spec ra dec lst lat)
  / (cos lat * cos (alt_spec ra dec lst lat)).

Definition legacy_za (ra dec lst lat : R) : R :=
  RPI / 2 - alt_spec ra dec lst lat.

Definition legacy_az (ra dec lst lat : R) : R :=
  sign (asin (sin_az_spec ra dec lst lat)) * acos (cos_az_spec ra dec lst lat).

(** Antenna positions of shape (Nants, 3), from points in meters. *)
Definition antpos_of (pts : list (R * R * R)) : tensor scalar 2 :=
  map (fun p => [Some (fst (fst p)); Some (snd (fst p)); Some (snd p)]) pts.

(** The element of a tensor at a multi-index, if the index is in range. *)
Fixpoint tget {A : Type} (n : nat) (idx : list nat) : tensor A n -> option A :=
  match n with
  | O => fun x => match idx with [] => Some x | _ :: _ => None end
  | S k => fun t =>
      match idx with
      | [] => None
      | i :: idx' =>
          match nth_error t i with
          | Some u => tget k idx' u
          | None => None
          end
      end
  end.

(** Two numbers agree to within [eps]. *)
Definition within (eps x y : R) : Prop := Rabs (x - y) <= eps.

(** The geometric delay of section 3: (antenna position . direction) / c. *)
Definition geometric_delay (v0 v1 v2 : R) (p : R * R * R) : R :=
  (fst (fst p) * v0 + snd (fst p) * v1 + snd p * v2) / 299792458.

(** Cosines of shape (3, N), from a list of N directions (m, l, n). *)
Definition cosines_of (dirs : list (R * R * R)) : tensor scalar 2 :=
  [ map (fun d => Some (fst (fst d))) dirs;
    map (fun d => Some (snd (fst d))) dirs;
    map (fun d => Some (snd d)) dirs ].

(** Distance of an antenna from the origin of the array. *)
Definition norm3 (p : R * R * R) : R :=
  sqrt (fst (fst p) * fst (fst p) + snd (fst p) * snd (fst p) + snd p * snd p).

(** The three topocentric cosines in terms of the hour angle [ra - lst]. *)
Definition cos_m (ra dec lst : R) : R := sin (ra - lst) * cos dec.

Definition cos_l (ra dec lst lat : R) : R :=
  cos lat * sin dec - sin lat * cos dec * cos (ra - lst).

Definition cos_n (ra dec lst lat : R) : R :=
  sin dec * sin lat + cos dec * cos lat * cos (ra - lst).

(** ** Lists and tensors: auxiliary facts *)

Lemma map2_map_combine {A B A' B' D : Type} (f : A' -> B' -> D) (g : A -> A') (h : B -> B')
  (xs : list A) (ys : list B) :
  map2 f (map g xs) (map h ys) = map (fun p => f (g (fst p)) (h (snd p))) (combine xs ys).
Proof.
  revert ys; induction xs as [|x xs IH]; intros [|y ys]; simpl; auto.
  now rewrite IH.
Qed.

Lemma map2_map_combine_swap {A B A' B' D : Type} (f : B' -> A' -> D) (g : A -> A') (h : B -> B')
  (xs : list A) (ys : list B) :
  map2 f (map h ys) (map g xs) = map (fun p => f (h (snd p)) (g (fst p))) (combine xs ys).
Proof.
  revert ys; induction xs as [|x xs IH]; intros [|y ys]; simpl; auto.
  now rewrite IH.
Qed.

Lemma map_snd_combine {A B D : Type} (h : B -> D) (xs : list A) (ys : list B) :
  length xs = length ys ->
  map h ys = map (fun p => h (snd p)) (combine xs ys).
Proof.
  revert ys; induction xs as [|x xs IH]; intros [|y ys]; simpl; intros H;
    try discriminate; auto.
  f_equal; apply IH; congruence.
Qed.

Lemma transpose3_map {A B : Type} (f0 f1 f2 : A -> B) (xs : list A) :
  transpose [map f0 xs; map f1 xs; map f2 xs] = map (fun x => [f0 x; f1 x; f2 x]) xs.
Proof.
  cbn [transpose].
  induction xs as [|x xs IH]; simpl; auto.
  now rewrite IH.
Qed.

Lemma fdiv_nz (a b : R) : b <> 0 -> fdiv (Some a) (Some b) = Some (a / b).
Proof.
  intros Hb; unfold fdiv; destruct (Req_EM_T b 0); [contradiction | reflexivity].
Qed.

(** ** Equatorial to topocentric *)

Lemma equatorial_to_topocentric_eq (ra dec lst : list R) (lat : R) :
  length ra = length dec ->
  equatorial_to_topocentric (map Some ra) (map Some dec) (map Some lst) (Some lat)
  = tmap 3 Some (P_dot_e ra dec lst lat).
Proof.
  intros Hlen.
  unfold equatorial_to_topocentric, tensordot_1_0, tf_stack, tmul, tneg, smul,
    tf_cos, tf_sin, tf_zeros_like, tf_ones_like.
  cbn [tmap tmap2 contract_last contract axis0_to_last map Nat.add tensor].
  rewrite !map_map.
  rewrite (map2_map_combine fmul (fun a => fcos (Some a)) (fun d => fcos (Some d))).
  rewrite (map2_map_combine_swap fmul (fun a => fsin (Some a)) (fun d => fcos (Some d))).
  rewrite (map_snd_combine (fun d => fsin (Some d)) ra dec Hlen).
  rewrite !transpose3_map.
  unfold P_dot_e; cbn [map].
  rewrite !map_map.
  repeat match goal with |- _ :: _ = _ :: _ => apply f_equal2 end;
    try reflexivity;
    apply map_ext; intros t; rewrite !map_map;
    apply map_ext; intros [a d]; cbn; f_equal; ring.
Qed.

(** C1: on per-source [ra], [dec], per-time [lst] and a scalar latitude,
    [equatorial_to_topocentric] returns [P(lst, latitude) . e], contracted
    over the equatorial axis, every LST combined with every source; the
    three planes of the output are the rows of [P], in the order (m, l, n). *)
Theorem equatorial_to_topocentric_is_P_dot_e (ra dec lst : list R) (lat : R) :
  length ra = length dec ->
  equatorial_to_topocentric (map Some ra) (map Some dec) (map Some lst) (Some lat)
  = tmap 3 Some (P_dot_e ra dec lst lat).
Proof. exact (equatorial_to_topocentric_eq ra dec lst lat). Qed.

Lemma equatorial_to_topocentric_is_P_dot_e_witness :
  equatorial_to_topocentric [Some 0] [Some 0] [Some 0] (Some 0)
  = tmap 3 Some (P_dot_e [0] [0] [0] 0).
Proof.
  apply (equatorial_to_topocentric_is_P_dot_e [0] [0] [0] 0); reflexivity.
Defined.

(** ** Topocentric cosines to azimuth and zenith angle *)

Lemma in_unit_true (a : R) : -1 <= a <= 1 -> in_unit a = true.
Proof.
  intros [H1 H2]; unfold in_unit.
  destruct (Rle_dec (-1) a); [|contradiction].
  destruct (Rle_dec a 1); [reflexivity | contradiction].
Qed.

Lemma sqrt_unit (x : R) : 0 <= x <= 1 -> 0 <= sqrt x <= 1.
Proof.
  intros [H0 H1]; split; [apply sqrt_pos|].
  rewrite <- sqrt_1; apply sqrt_le_1; lra.
Qed.

Lemma n_clip_unit (l m : R) : 0 <= n_clip l m <= 1.
Proof.
  unfold n_clip; cbv zeta.
  destruct (Rlt_dec (l ^ 2 + m ^ 2) 1); [|lra].
  apply sqrt_unit.
  pose proof (pow2_ge_0 l); pose proof (pow2_ge_0 m); lra.
Qed.

(** Above the horizon the clipped cosine completes a unit vector. *)
Lemma n_clip_unit_norm (l m : R) :
  l ^ 2 + m ^ 2 < 1 -> l ^ 2 + m ^ 2 + n_clip l m ^ 2 = 1.
Proof.
  intros Hlt; unfold n_clip; cbv zeta.
  destruct (Rlt_dec (l ^ 2 + m ^ 2) 1) as [_|H]; [|contradiction].
  rewrite <- (Rsqr_pow2 (sqrt (1 - (l ^ 2 + m ^ 2)))), Rsqr_sqrt by lra; ring.
Qed.

Lemma topocentric_to_az_za_0 (l m : R) :
  topocentric_to_az_za 0 (Some l) (Some m)
  = (Some (- atan2 m l), Some (RPI / 2 - asin (n_clip l m))).
Proof.
  pose proof (n_clip_unit l m) as Hn; revert Hn.
  unfold topocentric_to_az_za, n_clip, tadd, tsqr, tf_where, tlts, tf_sqrt, ssub,
    tneg, tf_atan2, tf_asin, PI.
  cbn [tmap tmap2 fadd fsqr fsub fneg fatan2 lift1 lift2 flt].
  rewrite fdiv_nz by lra.
  destruct (Rlt_dec (l ^ 2 + m ^ 2) 1) as [Hlt|Hge]; intros Hn.
  - unfold fsqrt.
    destruct (Rle_dec 0 (1 - (l ^ 2 + m ^ 2))) as [_|Hneg]; [|exfalso; lra].
    unfold fasin; rewrite in_unit_true by lra; reflexivity.
  - unfold fasin; rewrite in_unit_true by lra; reflexivity.
Qed.

(** C2: for all real [l], [m], [topocentric_to_az_za] computes
    [lsqr = l^2 + m^2], takes [n = sqrt (1 - lsqr)] when [lsqr < 1] and
    [n = 0] otherwise, and returns [az = - atan2 m l] and
    [za = PI/2 - asin n]. *)
Theorem topocentric_to_az_za_formula (l m : R) :
  topocentric_to_az_za 0 (Some l) (Some m)
  = (Some (fst (az_za_spec l m)), Some (snd (az_za_spec l m))).
Proof. exact (topocentric_to_az_za_0 l m). Qed.

(** C6: for real [l], [m] with [l^2 + m^2 >= 1] the function is defined:
    the zenith angle is exactly [PI/2] and the azimuth is a finite number. *)
Theorem topocentric_to_az_za_horizon_clip (l m : R) :
  1 <= l ^ 2 + m ^ 2 ->
  exists az : R,
    topocentric_to_az_za 0 (Some l) (Some m) = (Some az, Some (RPI / 2)).
Proof.
  intros Hge; exists (- atan2 m l).
  rewrite topocentric_to_az_za_0; unfold n_clip; cbv zeta.
  destruct (Rlt_dec (l ^ 2 + m ^ 2) 1); [lra|].
  rewrite asin_0; do 2 f_equal; lra.
Qed.

Lemma topocentric_to_az_za_horizon_clip_witness :
  exists az : R,
    topocentric_to_az_za 0 (Some 1) (Some 0) = (Some az, Some (RPI / 2)).
Proof.
  apply (topocentric_to_az_za_horizon_clip 1 0); lra.
Defined.

(** The function is defined on all real inputs. *)
Lemma topocentric_to_az_za_total (l m : R) :
  exists az za : R, topocentric_to_az_za 0 (Some l) (Some m) = (Some az, Some za).
Proof. rewrite topocentric_to_az_za_0; eauto. Qed.

(** ** Direct equatorial to azimuth and zenith angle *)

(** The three topocentric cosines have unit norm; stated on the sines and
    cosines of declination, latitude and hour angle. *)
Lemma unit_norm_poly (sd cd sl cl sh ch : R) :
  sd * sd + cd * cd = 1 -> sl * sl + cl * cl = 1 -> sh * sh + ch * ch = 1 ->
  (sh * cd) * (sh * cd)
  + (cl * sd - sl * cd * ch) * (cl * sd - sl * cd * ch)
  + (sd * sl + cd * cl * ch) * (sd * sl + cd * cl * ch) = 1.
Proof.
  intros Hd Hl Hh.
  assert (Ed : sd * sd + cd * cd - 1 = 0) by lra.
  assert (El : sl * sl + cl * cl - 1 = 0) by lra.
  assert (Eh : sh * sh + ch * ch - 1 = 0) by lra.
  replace ((sh * cd) * (sh * cd)
           + (cl * sd - sl * cd * ch) * (cl * sd - sl * cd * ch)
           + (sd * sl + cd * cl * ch) * (sd * sl + cd * cl * ch))
    with (1 + (cd * cd * (sh * sh + ch * ch - 1) + (sd * sd + cd * cd - 1)
               + (sl * sl + cl * cl - 1) * (sd * sd + cd * cd * (ch * ch)))) by ring.
  rewrite Ed, El, Eh; ring.
Qed.

Lemma sin_cos_sq (x : R) : sin x * sin x + cos x * cos x = 1.
Proof. exact (sin2_cos2 x). Qed.

Lemma sin_alt_unit (ra dec lst lat : R) : -1 <= sin_alt_spec ra dec lst lat <= 1.
Proof.
  unfold sin_alt_spec.
  pose proof (sin_cos_sq dec) as Hd.
  pose proof (sin_cos_sq lat) as Hl.
  pose proof (COS_bound (lst - ra)) as [Hc1 Hc2].
  set (a := sin dec) in *; set (p := cos dec) in *.
  set (b := sin lat) in *; set (q := cos lat) in *.
  set (c := cos (lst - ra)) in *.
  assert (Hcc : c * c <= 1) by nra.
  assert (Hq : q * q * (c * c) <= q * q) by nra.
  pose proof (Rle_0_sqr (a - b)) as H1; unfold Rsqr in H1.
  pose proof (Rle_0_sqr (a + b)) as H2; unfold Rsqr in H2.
  pose proof (Rle_0_sqr (p - q * c)) as H3; unfold Rsqr in H3.
  pose proof (Rle_0_sqr (p + q * c)) as H4; unfold Rsqr in H4.
  split; nra.
Qed.

Lemma fasin_sin_alt (ra dec lst lat : R) :
  fasin (Some (sin_alt_spec ra dec lst lat)) = Some (alt_spec ra dec lst lat).
Proof.
  unfold fasin; rewrite (in_unit_true _ (sin_alt_unit ra dec lst lat)); reflexivity.
Qed.

Lemma eq_to_az_za_unfold (ra dec lst lat : R) :
  eq_to_az_za 0 (Some ra) (Some dec) (Some lst) (Some lat)
  = (Some (0.5 * RPI - alt_spec ra dec lst lat),
     fmul (fsign (fasin (fdiv (Some (sin (ra - lst) * cos dec))
                              (Some (cos (alt_spec ra dec lst lat))))))
          (facos (fdiv (Some (sin dec - sin lat * sin_alt_spec ra dec lst lat))
                       (Some (cos lat * cos (alt_spec ra dec lst lat)))))).
Proof.
  unfold eq_to_az_za, tadd, tmuls, tmul, tsub, tdiv, smul, ssub, tf_sin, tf_cos,
    tf_asin, tf_acos, tf_sign.
  cbn [tmap tmap2 fadd fmul fsub fsin fcos lift1 lift2].
  fold (sin_alt_spec ra dec lst lat).
  rewrite !fasin_sin_alt.
  reflexivity.
Qed.

Lemma ratio_unit (x s : R) : 0 < s -> x * x <= s * s -> -1 <= x / s <= 1.
Proof.
  intros Hs Hx.
  assert (Hb : - s <= x <= s) by (split; nra).
  pose proof (Rinv_0_lt_compat s Hs) as Ht.
  assert (Hst : s * / s = 1) by (apply Rinv_r; lra).
  unfold Rdiv; set (t := / s) in *.
  split; nra.
Qed.

Lemma legacy_ratios_unit (ra dec lst lat : R) :
  cos (alt_spec ra dec lst lat) <> 0 -> cos lat <> 0 ->
  -1 <= sin_az_spec ra dec lst lat <= 1 /\ -1 <= cos_az_spec ra dec lst lat <= 1.
Proof.
  intros Hs Hcl.
  unfold sin_az_spec, cos_az_spec.
  pose proof (sin_alt_unit ra dec lst lat) as Hn.
  revert Hs; unfold alt_spec; rewrite (cos_asin _ Hn); intros Hs.
  assert (H0 : 0 <= 1 - (sin_alt_spec ra dec lst lat)²) by (unfold Rsqr; nra).
  pose proof (sqrt_pos (1 - (sin_alt_spec ra dec lst lat)²)) as Hpos.
  pose proof (sqrt_sqrt _ H0) as Hsq.
  set (s := sqrt (1 - (sin_alt_spec ra dec lst lat)²)) in *.
  pose proof (sin_cos_sq dec) as Hd.
  pose proof (sin_cos_sq lat) as Hl.
  pose proof (sin_cos_sq (ra - lst)) as Hh.
  assert (Hch : cos (lst - ra) = cos (ra - lst))
    by (replace (lst - ra) with (- (ra - lst)) by ring; apply cos_neg).
  pose proof (unit_norm_poly _ _ _ _ _ _ Hd Hl Hh) as Hu.
  unfold Rsqr in Hsq; revert Hsq Hn H0; unfold sin_alt_spec; rewrite Hch.
  set (sd := sin dec) in *; set (cd := cos dec) in *.
  set (sl := sin lat) in *; set (cl := cos lat) in *.
  set (sh := sin (ra - lst)) in *; set (ch := cos (ra - lst)) in *.
  intros Hsq Hn _.
  assert (Hs0 : 0 < s) by lra.
  split.
  - apply ratio_unit; [exact Hs0|].
    pose proof (Rle_0_sqr (cl * sd - sl * cd * ch)) as Hq; unfold Rsqr in Hq.
    nra.
  - replace ((sd - sl * (sd * sl + cd * cl * ch)) / (cl * s))
      with ((cl * sd - sl * cd * ch) / s).
    + apply ratio_unit; [exact Hs0|].
      pose proof (Rle_0_sqr (sh * cd)) as Hq; unfold Rsqr in Hq.
      nra.
    + replace (sd - sl * (sd * sl + cd * cl * ch))
        with (cl * (cl * sd - sl * cd * ch)).
      * field; split; lra.
      * replace (cl * (cl * sd - sl * cd * ch))
          with ((sl * sl + cl * cl) * sd - sl * (sd * sl + cd * cl * ch) - sl * sl * sd + sl * sd * sl)
          by ring.
        rewrite Hl; ring.
Qed.

Lemma eq_to_az_za_defined (ra dec lst lat : R) :
  cos (alt_spec ra dec lst lat) <> 0 -> cos lat <> 0 ->
  eq_to_az_za 0 (Some ra) (Some dec) (Some lst) (Some lat)
  = (Some (legacy_za ra dec lst lat), Some (legacy_az ra dec lst lat)).
Proof.
  intros Hs Hcl.
  destruct (legacy_ratios_unit ra dec lst lat Hs Hcl) as [Hsa Hca].
  rewrite eq_to_az_za_unfold.
  rewrite !fdiv_nz by (try apply Rmult_integral_contrapositive_currified; assumption).
  fold (sin_az_spec ra dec lst lat) (cos_az_spec ra dec lst lat).
  unfold fasin, facos; rewrite !in_unit_true by assumption.
  cbn [fsign fmul lift1 lift2].
  unfold legacy_za, legacy_az.
  do 2 f_equal; lra.
Qed.

(** Without a finite divisor there is no azimuth. *)
Lemma eq_to_az_za_singular (ra dec lst lat : R) :
  cos (alt_spec ra dec lst lat) = 0 ->
  snd (eq_to_az_za 0 (Some ra) (Some dec) (Some lst) (Some lat)) = None.
Proof.
  intros Hs; rewrite eq_to_az_za_unfold; cbn [snd]; rewrite Hs.
  unfold fdiv at 1; destruct (Req_EM_T 0 0) as [_|Hne]; [|exfalso; lra].
  reflexivity.
Qed.

Lemma atan2_origin : atan2 0 0 = 0.
Proof.
  unfold atan2.
  destruct (Rlt_dec 0 0) as [H|_]; [exfalso; lra|reflexivity].
Qed.

Lemma n_clip_origin : n_clip 0 0 = 1.
Proof.
  unfold n_clip; cbv zeta.
  destruct (Rlt_dec (0 ^ 2 + 0 ^ 2) 1) as [_|H]; [|exfalso; lra].
  replace (1 - (0 ^ 2 + 0 ^ 2)) with 1 by ring.
  apply sqrt_1.
Qed.

Lemma topocentric_to_az_za_origin :
  topocentric_to_az_za 0 (Some 0) (Some 0) = (Some 0, Some 0).
Proof.
  rewrite topocentric_to_az_za_0, atan2_origin, n_clip_origin, asin_1.
  do 2 f_equal; lra.
Qed.

Lemma sin_alt_zenith (lst lat : R) : sin_alt_spec lst lat lst lat = 1.
Proof.
  unfold sin_alt_spec.
  replace (lst - lst) with 0 by ring; rewrite cos_0.
  pose proof (sin_cos_sq lat); lra.
Qed.

Lemma cos_alt_zenith (lst lat : R) : cos (alt_spec lst lat lst lat) = 0.
Proof. unfold alt_spec; rewrite sin_alt_zenith, asin_1; apply cos_PI2. Qed.

(** In exact arithmetic the two azimuth paths part at the zenith:
    [topocentric_to_az_za] at [l = m = 0] returns the azimuth
    [- atan2 0 0 = 0] with zenith angle 0, while [eq_to_az_za] with
    [dec = latitude] and [ra = lst] divides by [cos alt = 0].  This is a
    statement about real numbers only: the float64 value of [cos] at the
    rounded [PI/2] is a tiny non-zero number, and what the program then
    returns is decided by rounding, which is not modelled here. *)
Lemma exact_zenith_singularity :
  topocentric_to_az_za 0 (Some 0) (Some 0) = (Some 0, Some 0)
  /\ forall lst lat : R,
       cos (alt_spec lst lat lst lat) = 0
       /\ snd (eq_to_az_za 0 (Some lst) (Some lat) (Some lst) (Some lat)) = None.
Proof.
  split; [exact topocentric_to_az_za_origin|].
  intros lst lat; split; [apply cos_alt_zenith|].
  apply eq_to_az_za_singular, cos_alt_zenith.
Qed.

(** ** Delays *)

Lemma tmap_tmap {A B D : Type} (n : nat) (f : A -> B) (g : B -> D) (t : tensor A n) :
  tmap n g (tmap n f t) = tmap n (fun x => g (f x)) t.
Proof.
  revert t; induction n as [|n IH]; intros t; cbn [tmap]; [reflexivity|].
  rewrite map_map; apply map_ext; exact IH.
Qed.

Lemma tmap_ext {A B : Type} (n : nat) (f g : A -> B) (t : tensor A n) :
  (forall x, f x = g x) -> tmap n f t = tmap n g t.
Proof.
  intros Hfg; revert t; induction n as [|n IH]; intros t; cbn [tmap]; [apply Hfg|].
  apply map_ext; exact IH.
Qed.

Lemma fmul_fadd_distr (k : R) (x y : scalar) :
  fmul (Some k) (fadd x y) = fadd (fmul (Some k) x) (fmul (Some k) y).
Proof. destruct x, y; cbn; try reflexivity; f_equal; ring. Qed.

Lemma fmul_assoc_l (k : R) (x y : scalar) :
  fmul (fmul (Some k) x) y = fmul (Some k) (fmul x y).
Proof. destruct x, y; cbn; try reflexivity; f_equal; ring. Qed.

Lemma fdiv_fmul_l (k : R) (x y : scalar) :
  fdiv (fmul (Some k) x) y = fmul (Some k) (fdiv x y).
Proof.
  destruct x as [a|], y as [b|]; cbn; try reflexivity.
  destruct (Req_EM_T b 0); cbn; [reflexivity|].
  f_equal; unfold Rdiv; ring.
Qed.

Lemma dot_scale (k : R) (row b : list scalar) :
  dot (map (fmul (Some k)) row) b = fmul (Some k) (dot row b).
Proof.
  revert b; induction row as [|a row IH]; intros b.
  - cbn; f_equal; ring.
  - destruct b as [|c b]; [cbn; f_equal; ring|].
    cbn [map dot]; rewrite IH, fmul_fadd_distr, fmul_assoc_l; reflexivity.
Qed.

Lemma contract_scale (n : nat) (k : R) (row : list scalar) (b : list (tensor scalar n)) :
  contract n (map (fmul (Some k)) row) b = tmap n (fmul (Some k)) (contract n row b).
Proof.
  revert b; induction n as [|n IH]; intros b; cbn [contract tmap].
  - apply dot_scale.
  - rewrite map_map; apply map_ext; intros c; apply IH.
Qed.

Lemma tensordot_scale (n : nat) (k : R) (a : tensor scalar 2) (b : tensor scalar (S n)) :
  tensordot_1_0 0 n (smul 2 (Some k) a) b = smul (S n) (Some k) (tensordot_1_0 0 n a b).
Proof.
  unfold tensordot_1_0, smul.
  cbn [contract_last axis0_to_last tmap Nat.add].
  rewrite !map_map; apply map_ext; intros row.
  apply contract_scale.
Qed.

Lemma tdivs_scale (n : nat) (k : R) (t : tensor scalar n) (c : scalar) :
  tdivs n (smul n (Some k) t) c = smul n (Some k) (tdivs n t c).
Proof.
  unfold tdivs, smul; rewrite !tmap_tmap.
  apply tmap_ext; intros x; apply fdiv_fmul_l.
Qed.

(** C9: the delay is linear in the antenna positions: scaling every
    position by a constant [k] scales every delay by [k], on both delay
    paths, for tensors of any rank. *)
Theorem delay_linear_in_antpos (n : nat) (k : R) (antpos : tensor scalar 2) :
  (forall topo_cosines : tensor scalar (S n),
      topocentric_to_delay n topo_cosines (smul 2 (Some k) antpos)
      = smul (S n) (Some k) (topocentric_to_delay n topo_cosines antpos))
  /\ (forall az za : tensor scalar n,
         az_za_to_delay n az za (smul 2 (Some k) antpos)
         = smul (S n) (Some k) (az_za_to_delay n az za antpos)).
Proof.
  split; intros; unfold topocentric_to_delay, az_za_to_delay; cbv zeta;
    rewrite tensordot_scale; apply tdivs_scale.
Qed.

(** *** Polar form of the two-argument arctangent *)

Lemma sqrt_sq_pos (a : R) : 0 <= a -> sqrt (a * a) = a.
Proof. intros Ha; apply sqrt_square; exact Ha. Qed.

Lemma atan_polar (x y : R) :
  x <> 0 ->
  sqrt (x * x + y * y) * cos (atan (y / x)) = Rabs x
  /\ sqrt (x * x + y * y) * sin (atan (y / x)) = Rabs x * (y / x).
Proof.
  intros Hx.
  rewrite cos_atan, sin_atan.
  assert (Hpos : 0 < 1 + (y / x)²) by (unfold Rsqr; nra).
  pose proof (sqrt_lt_R0 _ Hpos) as Hs.
  assert (Hr : sqrt (x * x + y * y) = Rabs x * sqrt (1 + (y / x)²)).
  { rewrite <- (sqrt_Rsqr_abs x), <- sqrt_mult; [|apply Rle_0_sqr|lra].
    f_equal; unfold Rsqr; field; exact Hx. }
  rewrite Hr; set (s := sqrt (1 + (y / x)²)) in *.
  split; field; lra.
Qed.

Lemma atan2_polar (y x : R) :
  sqrt (x * x + y * y) * cos (atan2 y x) = x
  /\ sqrt (x * x + y * y) * sin (atan2 y x) = y.
Proof.
  unfold atan2.
  destruct (Rlt_dec 0 x) as [Hx|Hx].
  - destruct (atan_polar x y) as [Hc Hs]; [lra|].
    rewrite Hc, Hs, Rabs_right by lra; split; [reflexivity | field; lra].
  - destruct (Rlt_dec x 0) as [Hx'|Hx'].
    + destruct (atan_polar x y) as [Hc Hs]; [lra|].
      rewrite Rabs_left in Hc, Hs by lra.
      destruct (Rle_dec 0 y).
      * rewrite neg_cos, neg_sin, !Ropp_mult_distr_r_reverse, Hc, Hs.
        split; [ring | field; lra].
      * rewrite cos_minus, sin_minus, cos_PI, sin_PI.
        replace (sqrt (x * x + y * y) * (cos (atan (y / x)) * -1 + sin (atan (y / x)) * 0))
          with (- (sqrt (x * x + y * y) * cos (atan (y / x)))) by ring.
        replace (sqrt (x * x + y * y) * (sin (atan (y / x)) * -1 - cos (atan (y / x)) * 0))
          with (- (sqrt (x * x + y * y) * sin (atan (y / x)))) by ring.
        rewrite Hc, Hs; split; [ring | field; lra].
    + assert (Ex : x = 0) by lra; subst x.
      replace (0 * 0 + y * y) with (y * y) by ring.
      destruct (Rlt_dec 0 y) as [Hy|Hy].
      * rewrite cos_PI2, sin_PI2, sqrt_sq_pos by lra; split; ring.
      * destruct (Rlt_dec y 0) as [Hy'|Hy'].
        -- rewrite cos_neg, sin_neg, cos_PI2, sin_PI2.
           replace (y * y) with ((- y) * (- y)) by ring.
           rewrite sqrt_sq_pos by lra; split; ring.
        -- assert (Ey : y = 0) by lra; subst y.
           rewrite Rmult_0_l, sqrt_0; split; ring.
Qed.

(** *** Delays of a single direction *)

Lemma delay_of_vector (v0 v1 v2 : R) (pts : list (R * R * R)) :
  tdivs 1 (tensordot_1_0 0 0 (antpos_of pts) [Some v0; Some v1; Some v2]) C
  = map Some (map (geometric_delay v0 v1 v2) pts).
Proof.
  unfold tdivs, tensordot_1_0, antpos_of, C.
  cbn [tmap contract_last contract axis0_to_last Nat.add].
  rewrite !map_map; apply map_ext; intros [[x y] z].
  cbn [dot fmul fadd lift2 fst snd].
  rewrite fdiv_nz by lra.
  unfold geometric_delay; cbn [fst snd]; f_equal; field.
Qed.

Lemma topocentric_to_delay_0 (v0 v1 v2 : R) (pts : list (R * R * R)) :
  topocentric_to_delay 0 [Some v0; Some v1; Some v2] (antpos_of pts)
  = map Some (map (geometric_delay v0 v1 v2) pts).
Proof. apply delay_of_vector. Qed.

(** The direction rebuilt from azimuth and zenith angle is the direction
    the angles were computed from. *)
Lemma coord_proj_round_trip (l m : R) :
  l ^ 2 + m ^ 2 < 1 ->
  let az := - atan2 m l in
  let alt := RPI / 2 - (RPI / 2 - asin (n_clip l m)) in
  - sin az * cos alt = m /\ cos az * cos alt = l /\ sin alt = n_clip l m.
Proof.
  intros Hlt az alt.
  pose proof (n_clip_unit l m) as Hn.
  assert (Ealt : alt = asin (n_clip l m)) by (unfold alt; ring).
  rewrite Ealt, sin_asin, cos_asin by lra.
  assert (Er : sqrt (1 - (n_clip l m)²) = sqrt (l * l + m * m)).
  { f_equal; unfold n_clip; cbv zeta.
    destruct (Rlt_dec (l ^ 2 + m ^ 2) 1) as [_|H]; [|contradiction].
    rewrite Rsqr_sqrt by lra; ring. }
  rewrite Er; unfold az; rewrite sin_neg, cos_neg, Ropp_involutive.
  destruct (atan2_polar m l) as [Hc Hs].
  repeat split; rewrite Rmult_comm; assumption.
Qed.

Lemma az_za_to_delay_round_trip (l m : R) (pts : list (R * R * R)) :
  l ^ 2 + m ^ 2 < 1 ->
  az_za_to_delay 0 (fst (topocentric_to_az_za 0 (Some l) (Some m)))
    (snd (topocentric_to_az_za 0 (Some l) (Some m))) (antpos_of pts)
  = map Some (map (geometric_delay m l (n_clip l m)) pts).
Proof.
  intros Hlt.
  rewrite topocentric_to_az_za_0; cbn [fst snd].
  unfold az_za_to_delay, ssub, tmul, tneg, tf_sin, tf_cos, tf_stack.
  cbn [tmap tmap2 fsub fmul fneg fsin fcos lift1 lift2].
  destruct (coord_proj_round_trip l m Hlt) as (Hm & Hl & Hn).
  cbv zeta in Hm, Hl, Hn; rewrite Hm, Hl, Hn.
  apply delay_of_vector.
Qed.

Lemma Forall2_within_refl (eps : R) (ds : list R) :
  0 <= eps -> Forall2 (within eps) ds ds.
Proof.
  intros He; induction ds as [|d ds IH]; constructor; [|exact IH].
  unfold within; rewrite Rminus_diag, Rabs_R0; exact He.
Qed.

(** C3: for a direction above the horizon, [l^2 + m^2 < 1] and
    [n = sqrt (1 - l^2 - m^2)], and any antenna positions, the delays
    obtained through [topocentric_to_az_za] and [az_za_to_delay] agree with
    those of [topocentric_to_delay] on the cosines (m, l, n), antenna by
    antenna, to within 1e-9 s. *)
Theorem delay_round_trip (l m n : R) (pts : list (R * R * R)) :
  l ^ 2 + m ^ 2 < 1 ->
  n = sqrt (1 - l ^ 2 - m ^ 2) ->
  exists d_direct d_via : list R,
    topocentric_to_delay 0 [Some m; Some l; Some n] (antpos_of pts) = map Some d_direct
    /\ az_za_to_delay 0 (fst (topocentric_to_az_za 0 (Some l) (Some m)))
         (snd (topocentric_to_az_za 0 (Some l) (Some m))) (antpos_of pts)
       = map Some d_via
    /\ Forall2 (within (1 / 10 ^ 9)) d_direct d_via.
Proof.
  intros Hlt Hn.
  assert (En : n = n_clip l m).
  { unfold n_clip; cbv zeta.
    destruct (Rlt_dec (l ^ 2 + m ^ 2) 1) as [_|H]; [|contradiction].
    rewrite Hn; f_equal; ring. }
  exists (map (geometric_delay m l n) pts), (map (geometric_delay m l n) pts).
  split; [apply topocentric_to_delay_0|].
  split; [rewrite En; apply az_za_to_delay_round_trip; exact Hlt|].
  apply Forall2_within_refl.
  apply Rlt_le, Rdiv_lt_0_compat; [lra | apply pow_lt; lra].
Qed.

Lemma delay_round_trip_witness :
  exists d_direct d_via : list R,
    topocentric_to_delay 0 [Some 0; Some 0; Some (sqrt (1 - 0 ^ 2 - 0 ^ 2))]
      (antpos_of [(0, 0, 0); (14.6, 0, 0); (0, 14.6, 0)]) = map Some d_direct
    /\ az_za_to_delay 0 (fst (topocentric_to_az_za 0 (Some 0) (Some 0)))
         (snd (topocentric_to_az_za 0 (Some 0) (Some 0)))
         (antpos_of [(0, 0, 0); (14.6, 0, 0); (0, 14.6, 0)])
       = map Some d_via
    /\ Forall2 (within (1 / 10 ^ 9)) d_direct d_via.
Proof.
  apply (delay_round_trip 0 0 (sqrt (1 - 0 ^ 2 - 0 ^ 2))
           [(0, 0, 0); (14.6, 0, 0); (0, 14.6, 0)]); [lra | reflexivity].
Defined.

(** ** Indexing *)

Lemma tget_cons {A : Type} (n : nat) (i : nat) (idx : list nat) (t : list (tensor A n)) :
  tget (S n) (i :: idx) t
  = match nth_error t i with
    | Some u => tget n idx u
    | None => None
    end.
Proof. reflexivity. Qed.

Lemma tmap_S {A B : Type} (n : nat) (f : A -> B) (t : list (tensor A n)) :
  tmap (S n) f t = map (tmap n f) t.
Proof. reflexivity. Qed.

Lemma tget_tmap {A B : Type} (n : nat) (f : A -> B) (idx : list nat) (t : tensor A n) :
  tget n idx (tmap n f t) = option_map f (tget n idx t).
Proof.
  revert idx t; induction n as [|n IH]; intros idx t.
  - destruct idx; reflexivity.
  - destruct idx as [|i idx]; [reflexivity|].
    change (list (tensor A n)) in (type of t).
    rewrite tmap_S, !tget_cons, nth_error_map.
    destruct (nth_error t i) as [u|]; cbn [option_map]; [apply IH | reflexivity].
Qed.

Lemma tget_P_dot_e (ra dec lst : list R) (lat : R) (i t s : nat) :
  tget 3 [i; t; s] (P_dot_e ra dec lst lat)
  = match nth_error [0%nat; 1%nat; 2%nat] i, nth_error lst t, nth_error (combine ra dec) s with
    | Some j, Some T, Some p => Some (nth j (mat_vec (P_mat T lat) (e_vec (fst p) (snd p))) 0)
    | _, _, _ => None
    end.
Proof.
  unfold P_dot_e.
  rewrite (tget_cons 2), nth_error_map.
  destruct (nth_error [0%nat; 1%nat; 2%nat] i) as [j|]; cbn [option_map]; [|reflexivity].
  rewrite (tget_cons 1), nth_error_map.
  destruct (nth_error lst t) as [T|]; cbn [option_map]; [|reflexivity].
  rewrite (tget_cons 0), nth_error_map.
  destruct (nth_error (combine ra dec) s) as [p|]; reflexivity.
Qed.

(** The components of [P . e] in terms of the hour angle. *)
Lemma topo_components (T L a d : R) :
  mat_vec (P_mat T L) (e_vec a d)
  = [ sin (a - T) * cos d;
      cos L * sin d - sin L * cos d * cos (a - T);
      sin d * sin L + cos d * cos L * cos (a - T) ].
Proof.
  unfold mat_vec, P_mat, e_vec; cbn [map rdot].
  rewrite sin_minus, cos_minus.
  f_equal; [ring|]; f_equal; [ring|]; f_equal; ring.
Qed.

Lemma topo_components_unit (T L a d : R) :
  (sin (a - T) * cos d) ^ 2
  + (cos L * sin d - sin L * cos d * cos (a - T)) ^ 2
  + (sin d * sin L + cos d * cos L * cos (a - T)) ^ 2 = 1.
Proof.
  pose proof (unit_norm_poly _ _ _ _ _ _ (sin_cos_sq d) (sin_cos_sq L) (sin_cos_sq (a - T))) as H.
  rewrite <- H; ring.
Qed.

(** C5: the three components (m, l, n) that [equatorial_to_topocentric]
    returns for a time and a source satisfy [l^2 + m^2 + n^2 = 1] whenever
    [l^2 + m^2 < 1]. *)
Theorem topocentric_cosines_unit_norm (ra dec lst : list R) (lat : R) (t s : nat) (m l n : R) :
  length ra = length dec ->
  tget 3 [0%nat; t; s]
    (equatorial_to_topocentric (map Some ra) (map Some dec) (map Some lst) (Some lat))
  = Some (Some m) ->
  tget 3 [1%nat; t; s]
    (equatorial_to_topocentric (map Some ra) (map Some dec) (map Some lst) (Some lat))
  = Some (Some l) ->
  tget 3 [2%nat; t; s]
    (equatorial_to_topocentric (map Some ra) (map Some dec) (map Some lst) (Some lat))
  = Some (Some n) ->
  l ^ 2 + m ^ 2 < 1 ->
  l ^ 2 + m ^ 2 + n ^ 2 = 1.
Proof.
  intros Hlen Hm Hl Hn _.
  rewrite (equatorial_to_topocentric_eq ra dec lst lat Hlen) in Hm, Hl, Hn.
  rewrite tget_tmap, tget_P_dot_e in Hm, Hl, Hn.
  cbn [nth_error] in Hm, Hl, Hn.
  destruct (nth_error lst t) as [T|]; [|discriminate].
  destruct (nth_error (combine ra dec) s) as [[a d]|]; [|discriminate].
  rewrite topo_components in Hm, Hl, Hn.
  cbn [nth option_map fst snd] in Hm, Hl, Hn.
  injection Hm as <-; injection Hl as <-; injection Hn as <-.
  rewrite <- (topo_components_unit T lat a d); ring.
Qed.

Lemma topocentric_cosines_unit_norm_witness :
  tget 3 [0%nat; 0%nat; 0%nat]
    (equatorial_to_topocentric [Some 0] [Some 0] [Some 0] (Some 0)) = Some (Some 0)
  /\ 0 ^ 2 + 0 ^ 2 + 1 ^ 2 = 1.
Proof.
  assert (H0 : tget 3 [0%nat; 0%nat; 0%nat]
                 (equatorial_to_topocentric (map Some [0]) (map Some [0]) (map Some [0]) (Some 0))
               = Some (Some 0))
    by (cbn; rewrite sin_0, cos_0; do 2 f_equal; ring).
  split; [exact H0|].
  apply (topocentric_cosines_unit_norm [0] [0] [0] 0 0 0 0 0 1).
  - reflexivity.
  - exact H0.
  - cbn; rewrite sin_0, cos_0; do 2 f_equal; ring.
  - cbn; rewrite sin_0, cos_0; do 2 f_equal; ring.
  - lra.
Defined.

(** ** Delays of batches of directions *)

Lemma topocentric_to_delay_1 {A : Type} (f0 f1 f2 : A -> R) (xs : list A)
  (pts : list (R * R * R)) :
  topocentric_to_delay 1
    [ map (fun x => Some (f0 x)) xs; map (fun x => Some (f1 x)) xs;
      map (fun x => Some (f2 x)) xs ] (antpos_of pts)
  = map (fun q => map (fun x => Some (geometric_delay (f0 x) (f1 x) (f2 x) q)) xs) pts.
Proof.
  unfold topocentric_to_delay, tdivs, tensordot_1_0, antpos_of, C.
  cbn [tmap contract_last contract axis0_to_last Nat.add].
  rewrite transpose3_map, !map_map.
  apply map_ext; intros [[x y] z].
  rewrite !map_map; apply map_ext; intros u.
  cbn [dot fmul fadd lift2 fst snd].
  rewrite fdiv_nz by lra.
  unfold geometric_delay; cbn [fst snd]; f_equal; field.
Qed.

(** C4: [topocentric_to_delay] on cosines of shape (3, 2) (two sources)
    and one antenna: the values are (antpos . cosines) / c, and the result
    has shape (1, 2): the antenna axis comes first, the source axis last. *)
Theorem topocentric_to_delay_antenna_axis_first :
  topocentric_to_delay 1
    [ [Some 0; Some 1]; [Some 0; Some 0]; [Some 1; Some 0] ]
    (antpos_of [(2, 0, 1)])
  = [ [Some (1 / 299792458); Some (2 / 299792458)] ].
Proof.
  pose proof (topocentric_to_delay_1 (fun x => fst (fst x)) (fun x => snd (fst x))
                (fun x => snd x) [(0, 0, 1); (1, 0, 0)] [(2, 0, 1)]) as H.
  cbn [map fst snd] in H; rewrite H.
  unfold geometric_delay; cbn [fst snd].
  repeat f_equal; field.
Qed.

(** ** Elementwise operations commute with one another *)

Lemma map2_map_both {A A' B B' D : Type} (f : A' -> B' -> D) (g : A -> A') (h : B -> B')
  (xs : list A) (ys : list B) :
  map2 f (map g xs) (map h ys) = map2 (fun x y => f (g x) (h y)) xs ys.
Proof.
  revert ys; induction xs as [|x xs IH]; intros [|y ys]; cbn [map map2]; auto.
  now rewrite IH.
Qed.

Lemma map_map2 {A B D E : Type} (f : D -> E) (g : A -> B -> D) (xs : list A) (ys : list B) :
  map f (map2 g xs ys) = map2 (fun x y => f (g x y)) xs ys.
Proof.
  revert ys; induction xs as [|x xs IH]; intros [|y ys]; cbn [map map2]; auto.
  now rewrite IH.
Qed.

Lemma map2_map2_diag {A B D1 D2 E : Type} (f : D1 -> D2 -> E) (g : A -> B -> D1)
  (h : A -> B -> D2) (xs : list A) (ys : list B) :
  map2 f (map2 g xs ys) (map2 h xs ys) = map2 (fun x y => f (g x y) (h x y)) xs ys.
Proof.
  revert ys; induction xs as [|x xs IH]; intros [|y ys]; cbn [map2]; auto.
  now rewrite IH.
Qed.

Lemma map2_swap {A B D : Type} (f : B -> A -> D) (xs : list A) (ys : list B) :
  map2 f ys xs = map2 (fun x y => f y x) xs ys.
Proof.
  revert ys; induction xs as [|x xs IH]; intros [|y ys]; cbn [map2]; auto.
  now rewrite IH.
Qed.

Lemma map2_ext {A B D : Type} (f g : A -> B -> D) (xs : list A) (ys : list B) :
  (forall x y, f x y = g x y) -> map2 f xs ys = map2 g xs ys.
Proof.
  intros Hfg; revert ys; induction xs as [|x xs IH]; intros [|y ys]; cbn [map2]; auto.
  now rewrite Hfg, IH.
Qed.

Lemma tmap2_S {A B D : Type} (n : nat) (f : A -> B -> D)
  (a : list (tensor A n)) (b : list (tensor B n)) :
  tmap2 (S n) f a b = map2 (tmap2 n f) a b.
Proof. reflexivity. Qed.

Lemma tmap2_ext {A B D : Type} (n : nat) (f g : A -> B -> D) (a : tensor A n) (b : tensor B n) :
  (forall x y, f x y = g x y) -> tmap2 n f a b = tmap2 n g a b.
Proof.
  intros Hfg; revert a b; induction n as [|n IH]; intros a b; [apply Hfg|].
  change (list (tensor A n)) in (type of a); change (list (tensor B n)) in (type of b).
  rewrite !tmap2_S; apply map2_ext; exact IH.
Qed.

Lemma tmap2_tmap {A A' B B' D : Type} (n : nat) (f : A' -> B' -> D) (g : A -> A')
  (h : B -> B') (a : tensor A n) (b : tensor B n) :
  tmap2 n f (tmap n g a) (tmap n h b) = tmap2 n (fun x y => f (g x) (h y)) a b.
Proof.
  revert a b; induction n as [|n IH]; intros a b; [reflexivity|].
  change (list (tensor A n)) in (type of a); change (list (tensor B n)) in (type of b).
  rewrite !tmap_S, !tmap2_S, map2_map_both; apply map2_ext; exact IH.
Qed.

Lemma tmap_tmap2 {A B D E : Type} (n : nat) (f : D -> E) (g : A -> B -> D)
  (a : tensor A n) (b : tensor B n) :
  tmap n f (tmap2 n g a b) = tmap2 n (fun x y => f (g x y)) a b.
Proof.
  revert a b; induction n as [|n IH]; intros a b; [reflexivity|].
  change (list (tensor A n)) in (type of a); change (list (tensor B n)) in (type of b).
  rewrite tmap_S, !tmap2_S, map_map2; apply map2_ext; exact IH.
Qed.

Lemma tmap2_tmap2_diag {A B D1 D2 E : Type} (n : nat) (f : D1 -> D2 -> E)
  (g : A -> B -> D1) (h : A -> B -> D2) (a : tensor A n) (b : tensor B n) :
  tmap2 n f (tmap2 n g a b) (tmap2 n h a b) = tmap2 n (fun x y => f (g x y) (h x y)) a b.
Proof.
  revert a b; induction n as [|n IH]; intros a b; [reflexivity|].
  change (list (tensor A n)) in (type of a); change (list (tensor B n)) in (type of b).
  rewrite !tmap2_S, map2_map2_diag; apply map2_ext; exact IH.
Qed.

Lemma tmap2_swap {A B D : Type} (n : nat) (f : B -> A -> D) (a : tensor A n) (b : tensor B n) :
  tmap2 n f b a = tmap2 n (fun x y => f y x) a b.
Proof.
  revert a b; induction n as [|n IH]; intros a b; [reflexivity|].
  change (list (tensor A n)) in (type of a); change (list (tensor B n)) in (type of b).
  rewrite !tmap2_S, map2_swap; apply map2_ext; intros x y; apply IH.
Qed.

(** [topocentric_to_az_za] acts element by element, at every rank. *)
Lemma topocentric_to_az_za_elementwise (n : nat) (l m : tensor scalar n) :
  topocentric_to_az_za n l m
  = (tmap2 n (fun x y => fst (topocentric_to_az_za 0 x y)) l m,
     tmap2 n (fun x y => snd (topocentric_to_az_za 0 x y)) l m).
Proof.
  unfold topocentric_to_az_za, tadd, tsqr, tf_where, tlts, tf_sqrt, ssub, tneg,
    tf_atan2, tf_asin.
  cbv zeta; apply f_equal2.
  - rewrite (tmap2_swap n fatan2 l m), (tmap_tmap2 n); reflexivity.
  - rewrite (tmap2_tmap n fadd fsqr fsqr l m), !(tmap_tmap2 n), (tmap2_tmap2_diag n).
    reflexivity.
Qed.

Lemma nth_error_map2 {A B D : Type} (f : A -> B -> D) (xs : list A) (ys : list B) (i : nat) :
  nth_error (map2 f xs ys) i
  = match nth_error xs i, nth_error ys i with
    | Some x, Some y => Some (f x y)
    | _, _ => None
    end.
Proof.
  revert xs ys; induction i as [|i IH]; intros [|x xs] [|y ys]; cbn [map2 nth_error];
    try reflexivity.
  - destruct (nth_error xs i); reflexivity.
  - apply IH.
Qed.

Lemma tget_tmap2 {A B D : Type} (n : nat) (f : A -> B -> D) (idx : list nat)
  (a : tensor A n) (b : tensor B n) :
  tget n idx (tmap2 n f a b)
  = match tget n idx a, tget n idx b with
    | Some x, Some y => Some (f x y)
    | _, _ => None
    end.
Proof.
  revert idx a b; induction n as [|n IH]; intros idx a b.
  - destruct idx; reflexivity.
  - destruct idx as [|i idx]; [reflexivity|].
    change (list (tensor A n)) in (type of a); change (list (tensor B n)) in (type of b).
    rewrite tmap2_S, !tget_cons, nth_error_map2.
    destruct (nth_error a i) as [u|]; [|reflexivity].
    destruct (nth_error b i) as [v|]; [apply IH|].
    destruct (tget n idx u); reflexivity.
Qed.

Lemma nth_error_combine {A B : Type} (xs : list A) (ys : list B) (i : nat) (x : A) (y : B) :
  nth_error xs i = Some x -> nth_error ys i = Some y ->
  nth_error (combine xs ys) i = Some (x, y).
Proof.
  revert xs ys; induction i as [|i IH]; intros [|x' xs] [|y' ys]; cbn [combine nth_error];
    try discriminate.
  - intros [= ->] [= ->]; reflexivity.
  - apply IH.
Qed.

Lemma tget_plane {A B : Type} (g : A -> B -> R) (ts : list A) (xs : list B)
  (t s : nat) (T : A) (p : B) :
  nth_error ts t = Some T -> nth_error xs s = Some p ->
  tget 2 [t; s] (map (fun T => map (fun p => Some (g T p)) xs) ts) = Some (Some (g T p)).
Proof.
  intros Ht Hs.
  rewrite (tget_cons 1), nth_error_map, Ht; cbn [option_map].
  rewrite (tget_cons 0), nth_error_map, Hs; reflexivity.
Qed.

Lemma equatorial_to_topocentric_planes (ra dec lst : list R) (lat : R) :
  length ra = length dec ->
  equatorial_to_topocentric (map Some ra) (map Some dec) (map Some lst) (Some lat)
  = [ map (fun T => map (fun p => Some (sin (fst p - T) * cos (snd p))) (combine ra dec)) lst;
      map (fun T => map (fun p =>
             Some (cos lat * sin (snd p) - sin lat * cos (snd p) * cos (fst p - T)))
           (combine ra dec)) lst;
      map (fun T => map (fun p =>
             Some (sin (snd p) * sin lat + cos (snd p) * cos lat * cos (fst p - T)))
           (combine ra dec)) lst ].
Proof.
  intros Hlen.
  rewrite (equatorial_to_topocentric_eq ra dec lst lat Hlen).
  unfold P_dot_e; cbn [tmap map]; rewrite !map_map.
  repeat match goal with |- _ :: _ = _ :: _ => apply f_equal2 end;
    try reflexivity;
    apply map_ext; intros T; rewrite map_map;
    apply map_ext; intros p; rewrite topo_components; reflexivity.
Qed.

Lemma topocentric_to_delay_2 {A B : Type} (g0 g1 g2 : A -> B -> R) (ts : list A)
  (xs : list B) (pts : list (R * R * R)) :
  topocentric_to_delay 2
    [ map (fun T => map (fun p => Some (g0 T p)) xs) ts;
      map (fun T => map (fun p => Some (g1 T p)) xs) ts;
      map (fun T => map (fun p => Some (g2 T p)) xs) ts ] (antpos_of pts)
  = map (fun q =>
           map (fun T => map (fun p => Some (geometric_delay (g0 T p) (g1 T p) (g2 T p) q)) xs)
               ts) pts.
Proof.
  unfold topocentric_to_delay, tdivs, tensordot_1_0, antpos_of, C.
  cbn [tmap contract_last contract axis0_to_last Nat.add].
  rewrite transpose3_map, !map_map.
  apply map_ext; intros [[x y] z].
  rewrite !map_map; apply map_ext; intros T.
  rewrite transpose3_map, !map_map; apply map_ext; intros p.
  cbn [dot fmul fadd lift2 fst snd].
  rewrite fdiv_nz by lra.
  unfold geometric_delay; cbn [fst snd]; f_equal; field.
Qed.

(** ** A source at the zenith *)

Lemma zenith_delay_value (T lat : R) (q : R * R * R) :
  geometric_delay (sin (T - T) * cos lat)
    (cos lat * sin lat - sin lat * cos lat * cos (T - T))
    (sin lat * sin lat + cos lat * cos lat * cos (T - T)) q
  = snd q / 299792458.
Proof.
  unfold geometric_delay.
  replace (T - T) with 0 by ring; rewrite sin_0, cos_0.
  pose proof (sin_cos_sq lat) as H.
  replace (sin lat * sin lat + cos lat * cos lat * 1) with 1 by lra.
  f_equal; ring.
Qed.

Lemma zenith_pipeline (ra dec lst : list R) (lat T : R) (pts : list (R * R * R)) (t s : nat) :
  length ra = length dec ->
  nth_error lst t = Some T -> nth_error ra s = Some T -> nth_error dec s = Some lat ->
  tget 2 [t; s]
    (snd (topocentric_to_az_za 2
            (nth 1 (equatorial_to_topocentric (map Some ra) (map Some dec) (map Some lst)
                      (Some lat)) [])
            (nth 0 (equatorial_to_topocentric (map Some ra) (map Some dec) (map Some lst)
                      (Some lat)) [])))
  = Some (Some 0)
  /\ forall (a : nat) (q : R * R * R),
       nth_error pts a = Some q ->
       tget 3 [a; t; s]
         (topocentric_to_delay 2
            (equatorial_to_topocentric (map Some ra) (map Some dec) (map Some lst) (Some lat))
            (antpos_of pts))
       = Some (Some (snd q / 299792458)).
Proof.
  intros Hlen Ht Hra Hdec.
  pose proof (nth_error_combine ra dec s T lat Hra Hdec) as Hs.
  rewrite (equatorial_to_topocentric_planes ra dec lst lat Hlen).
  split.
  - cbn [nth].
    rewrite topocentric_to_az_za_elementwise; cbn [snd].
    rewrite tget_tmap2.
    rewrite (tget_plane _ lst (combine ra dec) t s T (T, lat) Ht Hs).
    rewrite (tget_plane _ lst (combine ra dec) t s T (T, lat) Ht Hs).
    cbn [fst snd].
    replace (T - T) with 0 by ring; rewrite sin_0, cos_0.
    replace (cos lat * sin lat - sin lat * cos lat * 1) with 0 by ring.
    rewrite Rmult_0_l, topocentric_to_az_za_origin; reflexivity.
  - intros a q Ha.
    rewrite topocentric_to_delay_2.
    rewrite (tget_cons 2), nth_error_map, Ha; cbn [option_map].
    rewrite (tget_plane _ lst (combine ra dec) t s T (T, lat) Ht Hs).
    cbn [fst snd]; rewrite zenith_delay_value; reflexivity.
Qed.

(** C7, as the code has it: for a source at the local zenith
    ([dec = latitude] and [ra = lst]) the pipeline gives a zenith angle of 0,
    and [topocentric_to_delay] gives each antenna the delay [z / c], [z] its
    height; the delay is therefore the same for antennas of equal height. *)
Theorem zenith_za_zero_delay_is_height (ra dec lst : list R) (lat T : R)
  (pts : list (R * R * R)) (t s : nat) :
  length ra = length dec ->
  nth_error lst t = Some T -> nth_error ra s = Some T -> nth_error dec s = Some lat ->
  tget 2 [t; s]
    (snd (topocentric_to_az_za 2
            (nth 1 (equatorial_to_topocentric (map Some ra) (map Some dec) (map Some lst)
                      (Some lat)) [])
            (nth 0 (equatorial_to_topocentric (map Some ra) (map Some dec) (map Some lst)
                      (Some lat)) [])))
  = Some (Some 0)
  /\ (forall (a : nat) (q : R * R * R),
        nth_error pts a = Some q ->
        tget 3 [a; t; s]
          (topocentric_to_delay 2
             (equatorial_to_topocentric (map Some ra) (map Some dec) (map Some lst) (Some lat))
             (antpos_of pts))
        = Some (Some (snd q / 299792458)))
  /\ (forall (a b : nat) (q r : R * R * R),
        nth_error pts a = Some q -> nth_error pts b = Some r -> snd q = snd r ->
        tget 3 [a; t; s]
          (topocentric_to_delay 2
             (equatorial_to_topocentric (map Some ra) (map Some dec) (map Some lst) (Some lat))
             (antpos_of pts))
        = tget 3 [b; t; s]
            (topocentric_to_delay 2
               (equatorial_to_topocentric (map Some ra) (map Some dec) (map Some lst)
                  (Some lat))
               (antpos_of pts))).
Proof.
  intros Hlen Ht Hra Hdec.
  destruct (zenith_pipeline ra dec lst lat T pts t s Hlen Ht Hra Hdec) as [Hza Hd].
  split; [exact Hza|]; split; [exact Hd|].
  intros a b q r Ha Hb Hz.
  rewrite (Hd a q Ha), (Hd b r Hb), Hz; reflexivity.
Qed.

Lemma zenith_za_zero_delay_is_height_witness :
  tget 2 [0%nat; 0%nat]
    (snd (topocentric_to_az_za 2
            (nth 1 (equatorial_to_topocentric [Some 0] [Some 0] [Some 0] (Some 0)) [])
            (nth 0 (equatorial_to_topocentric [Some 0] [Some 0] [Some 0] (Some 0)) [])))
  = Some (Some 0).
Proof.
  apply (zenith_za_zero_delay_is_height [0] [0] [0] 0 0
           [(0, 0, 0); (14.6, 0, 0); (0, 14.6, 0)] 0 0); reflexivity.
Defined.

(** C7 as stated fails: two antennas of different heights under a source
    at the zenith receive delays that differ by a microsecond. *)
Lemma zenith_delay_differs_with_height :
  exists d0 d1 : R,
    tget 3 [0%nat; 0%nat; 0%nat]
      (topocentric_to_delay 2
         (equatorial_to_topocentric [Some 0] [Some 0] [Some 0] (Some 0))
         (antpos_of [(0, 0, 0); (0, 0, 300)]))
    = Some (Some d0)
    /\ tget 3 [1%nat; 0%nat; 0%nat]
         (topocentric_to_delay 2
            (equatorial_to_topocentric [Some 0] [Some 0] [Some 0] (Some 0))
            (antpos_of [(0, 0, 0); (0, 0, 300)]))
       = Some (Some d1)
    /\ d0 <> d1
    /\ 1 / 10 ^ 6 < Rabs (d1 - d0).
Proof.
  destruct (zenith_pipeline [0] [0] [0] 0 0 [(0, 0, 0); (0, 0, 300)] 0 0
              eq_refl eq_refl eq_refl eq_refl) as [_ Hd].
  exists (0 / 299792458), (300 / 299792458).
  split; [exact (Hd 0%nat (0, 0, 0) eq_refl)|].
  split; [exact (Hd 1%nat (0, 0, 300) eq_refl)|].
  split; [lra|].
  rewrite Rabs_right; lra.
Qed.

(** * Further properties of the transforms *)

(** ** Ranges of the angles *)

Lemma atan_pos (t : R) : 0 < t -> 0 < atan t.
Proof. intros Ht; rewrite <- atan_0; apply atan_increasing; exact Ht. Qed.

Lemma atan_neg (t : R) : t < 0 -> atan t < 0.
Proof. intros Ht; rewrite <- atan_0; apply atan_increasing; exact Ht. Qed.

Lemma div_pos_neg (y x : R) : 0 < y -> x < 0 -> y / x < 0.
Proof.
  intros Hy Hx; unfold Rdiv.
  pose proof (Rinv_lt_0_compat x Hx); nra.
Qed.

Lemma div_neg_neg (y x : R) : y < 0 -> x < 0 -> 0 < y / x.
Proof.
  intros Hy Hx; unfold Rdiv.
  pose proof (Rinv_lt_0_compat x Hx); nra.
Qed.

Lemma div_pos_pos (y x : R) : 0 < y -> 0 < x -> 0 < y / x.
Proof. intros; apply Rdiv_lt_0_compat; assumption. Qed.

Lemma div_neg_pos (y x : R) : y < 0 -> 0 < x -> y / x < 0.
Proof.
  intros Hy Hx; unfold Rdiv.
  pose proof (Rinv_0_lt_compat x Hx); nra.
Qed.

(** The sign of [y] decides the half-plane of [atan2 y x]. *)
Lemma atan2_upper (y x : R) : 0 < y -> 0 < atan2 y x < RPI.
Proof.
  intros Hy; unfold atan2; pose proof PI_RGT_0 as Hpi.
  destruct (Rlt_dec 0 x) as [Hx|Hx].
  - pose proof (atan_bound (y / x)); pose proof (atan_pos _ (div_pos_pos y x Hy Hx)); lra.
  - destruct (Rlt_dec x 0) as [Hx'|Hx'].
    + destruct (Rle_dec 0 y) as [_|H]; [|exfalso; lra].
      pose proof (atan_bound (y / x)); pose proof (atan_neg _ (div_pos_neg y x Hy Hx')); lra.
    + destruct (Rlt_dec 0 y) as [_|H]; [lra | contradiction].
Qed.

Lemma atan2_lower (y x : R) : y < 0 -> - RPI < atan2 y x < 0.
Proof.
  intros Hy; unfold atan2; pose proof PI_RGT_0 as Hpi.
  destruct (Rlt_dec 0 x) as [Hx|Hx].
  - pose proof (atan_bound (y / x)); pose proof (atan_neg _ (div_neg_pos y x Hy Hx)); lra.
  - destruct (Rlt_dec x 0) as [Hx'|Hx'].
    + destruct (Rle_dec 0 y) as [H|_]; [exfalso; lra|].
      pose proof (atan_bound (y / x)); pose proof (atan_pos _ (div_neg_neg y x Hy Hx')); lra.
    + destruct (Rlt_dec 0 y) as [H|_]; [exfalso; lra|].
      destruct (Rlt_dec y 0) as [_|H]; [lra | contradiction].
Qed.

Lemma atan2_zero (x : R) : atan2 0 x = 0 \/ atan2 0 x = RPI.
Proof.
  unfold atan2.
  destruct (Rlt_dec 0 x) as [Hx|Hx].
  - left; unfold Rdiv; rewrite Rmult_0_l; apply atan_0.
  - destruct (Rlt_dec x 0) as [Hx'|Hx'].
    + destruct (Rle_dec 0 0) as [_|H]; [|exfalso; lra].
      right; unfold Rdiv; rewrite Rmult_0_l, atan_0; ring.
    + destruct (Rlt_dec 0 0) as [H|_]; [exfalso; lra|]; left; reflexivity.
Qed.

Lemma atan2_range (y x : R) : - RPI < atan2 y x <= RPI.
Proof.
  pose proof PI_RGT_0 as Hpi.
  destruct (Rtotal_order y 0) as [Hy|[Hy|Hy]].
  - pose proof (atan2_lower y x Hy); lra.
  - subst y; destruct (atan2_zero x) as [E|E]; rewrite E; lra.
  - pose proof (atan2_upper y x Hy); lra.
Qed.

Lemma asin_nonneg (x : R) : 0 <= x -> 0 <= asin x.
Proof.
  intros Hx; pose proof PI_RGT_0 as Hpi.
  destruct (Rle_dec 1 x) as [H1|H1].
  - unfold asin.
    destruct (Rle_dec x (-1)) as [H|_]; [exfalso; lra|].
    destruct (Rle_dec 1 x) as [_|H]; [lra | contradiction].
  - rewrite asin_atan by lra.
    destruct (Req_dec x 0) as [->|Hx0].
    + unfold Rdiv; rewrite Rmult_0_l, atan_0; lra.
    + apply Rlt_le, atan_pos, Rdiv_lt_0_compat; [lra|].
      apply sqrt_lt_R0; unfold Rsqr; nra.
Qed.

(** X1: for all real [l], [m] the azimuth of [topocentric_to_az_za] lies
    in [-PI, PI] and the zenith angle in [0, PI/2]: the function never
    reports a direction below the horizon. *)
Theorem topocentric_to_az_za_ranges (l m : R) :
  exists az za : R,
    topocentric_to_az_za 0 (Some l) (Some m) = (Some az, Some za)
    /\ - RPI <= az <= RPI
    /\ 0 <= za <= RPI / 2.
Proof.
  exists (- atan2 m l), (RPI / 2 - asin (n_clip l m)).
  split; [apply topocentric_to_az_za_0|].
  pose proof (atan2_range m l) as Ha.
  pose proof (n_clip_unit l m) as Hn.
  pose proof (asin_bound (n_clip l m)) as Hb.
  pose proof (asin_nonneg (n_clip l m) (proj1 Hn)) as H0.
  split; lra.
Qed.

(** ** Delays of batches, and their size *)

(** X2: for N directions and Nants antennas, [topocentric_to_delay] returns
    Nants rows of N delays: the entry for antenna [q] and direction
    (m, l, n) is [(x m + y l + z n) / c]. *)
Theorem topocentric_to_delay_batch (dirs pts : list (R * R * R)) :
  topocentric_to_delay 1 (cosines_of dirs) (antpos_of pts)
  = map (fun q =>
           map (fun d => Some (geometric_delay (fst (fst d)) (snd (fst d)) (snd d) q)) dirs)
        pts.
Proof.
  unfold cosines_of.
  exact (topocentric_to_delay_1 (fun d => fst (fst d)) (fun d => snd (fst d))
           (fun d => snd d) dirs pts).
Qed.

Lemma cauchy_schwarz3 (x y z a b c : R) :
  (x * a + y * b + z * c) * (x * a + y * b + z * c)
  <= (x * x + y * y + z * z) * (a * a + b * b + c * c).
Proof.
  pose proof (Rle_0_sqr (x * b - y * a)) as H1; unfold Rsqr in H1.
  pose proof (Rle_0_sqr (x * c - z * a)) as H2; unfold Rsqr in H2.
  pose proof (Rle_0_sqr (y * c - z * b)) as H3; unfold Rsqr in H3.
  nra.
Qed.

(** The delay of a unit direction is at most the light-travel time from
    the origin of the array to the antenna. *)
Lemma delay_bound (v0 v1 v2 : R) (q : R * R * R) :
  v0 * v0 + v1 * v1 + v2 * v2 = 1 ->
  Rabs (geometric_delay v0 v1 v2 q) <= norm3 q / 299792458.
Proof.
  intros Hu; destruct q as [[x y] z]; unfold geometric_delay, norm3; cbn [fst snd].
  pose proof (cauchy_schwarz3 x y z v0 v1 v2) as Hcs; rewrite Hu, Rmult_1_r in Hcs.
  unfold Rdiv; rewrite Rabs_mult, (Rabs_right (/ 299792458)) by lra.
  apply Rmult_le_compat_r; [lra|].
  rewrite <- sqrt_Rsqr_abs; apply sqrt_le_1_alt; unfold Rsqr; exact Hcs.
Qed.

Lemma az_za_direction_unit (az za : R) :
  (- sin az * sin za) * (- sin az * sin za) + (cos az * sin za) * (cos az * sin za)
  + cos za * cos za = 1.
Proof.
  pose proof (sin_cos_sq az) as Ha; pose proof (sin_cos_sq za) as Hz.
  replace ((- sin az * sin za) * (- sin az * sin za)
           + (cos az * sin za) * (cos az * sin za) + cos za * cos za)
    with ((sin az * sin az + cos az * cos az) * (sin za * sin za) + cos za * cos za) by ring.
  rewrite Ha; lra.
Qed.

Lemma az_za_to_delay_0 (az za : R) (pts : list (R * R * R)) :
  az_za_to_delay 0 (Some az) (Some za) (antpos_of pts)
  = map Some (map (geometric_delay (- sin az * sin za) (cos az * sin za) (cos za)) pts).
Proof.
  unfold az_za_to_delay, ssub, tmul, tneg, tf_sin, tf_cos, tf_stack.
  cbn [tmap tmap2 fsub fmul fneg fsin fcos lift1 lift2].
  rewrite cos_shift, sin_shift.
  apply delay_of_vector.
Qed.

(** X3: [az_za_to_delay] is the dot product of each antenna position with
    the unit vector [(- sin az sin za, cos az sin za, cos za)], divided by
    [c]; no delay exceeds the light-travel time over the distance of the
    antenna from the origin. *)
Theorem az_za_to_delay_unit_direction (az za : R) (pts : list (R * R * R)) :
  az_za_to_delay 0 (Some az) (Some za) (antpos_of pts)
  = map Some (map (geometric_delay (- sin az * sin za) (cos az * sin za) (cos za)) pts)
  /\ Forall (fun q =>
               Rabs (geometric_delay (- sin az * sin za) (cos az * sin za) (cos za) q)
               <= norm3 q / 299792458) pts.
Proof.
  split; [apply az_za_to_delay_0|].
  apply Forall_forall; intros q _.
  apply delay_bound, az_za_direction_unit.
Qed.

(** ** The pipeline from equatorial coordinates, entry by entry *)

Lemma cosines_unit (a d T L : R) :
  cos_m a d T * cos_m a d T + cos_l a d T L * cos_l a d T L + cos_n a d T L * cos_n a d T L = 1.
Proof.
  unfold cos_m, cos_l, cos_n.
  exact (unit_norm_poly _ _ _ _ _ _ (sin_cos_sq d) (sin_cos_sq L) (sin_cos_sq (a - T))).
Qed.

Lemma pipeline_delay_at (ra dec lst : list R) (lat : R) (pts : list (R * R * R))
  (i t s : nat) (T a d : R) (q : R * R * R) :
  length ra = length dec ->
  nth_error lst t = Some T -> nth_error ra s = Some a -> nth_error dec s = Some d ->
  nth_error pts i = Some q ->
  tget 3 [i; t; s]
    (topocentric_to_delay 2
       (equatorial_to_topocentric (map Some ra) (map Some dec) (map Some lst) (Some lat))
       (antpos_of pts))
  = Some (Some (geometric_delay (cos_m a d T) (cos_l a d T lat) (cos_n a d T lat) q)).
Proof.
  intros Hlen Ht Hra Hdec Hq.
  pose proof (nth_error_combine ra dec s a d Hra Hdec) as Hs.
  rewrite (equatorial_to_topocentric_planes ra dec lst lat Hlen), topocentric_to_delay_2.
  rewrite (tget_cons 2), nth_error_map, Hq; cbn [option_map].
  rewrite (tget_plane _ lst (combine ra dec) t s T (a, d) Ht Hs).
  reflexivity.
Qed.


(** X4: every delay computed from equatorial coordinates is the dot
    product of the antenna position with the source's cosines, over [c],
    and is bounded by the light-travel time over the antenna's distance
    from the origin, whatever the source, time and latitude. *)
Theorem pipeline_delay_bounded (ra dec lst : list R) (lat : R) (pts : list (R * R * R))
  (i t s : nat) (T a d : R) (q : R * R * R) :
  length ra = length dec ->
  nth_error lst t = Some T -> nth_error ra s = Some a -> nth_error dec s = Some d ->
  nth_error pts i = Some q ->
  exists tau : R,
    tget 3 [i; t; s]
      (topocentric_to_delay 2
         (equatorial_to_topocentric (map Some ra) (map Some dec) (map Some lst) (Some lat))
         (antpos_of pts))
    = Some (Some tau)
    /\ tau = geometric_delay (cos_m a d T) (cos_l a d T lat) (cos_n a d T lat) q
    /\ Rabs tau <= norm3 q / 299792458.
Proof.
  intros Hlen Ht Hra Hdec Hq.
  eexists; split; [exact (pipeline_delay_at ra dec lst lat pts i t s T a d q Hlen Ht Hra Hdec Hq)|].
  split; [reflexivity|].
  apply delay_bound, cosines_unit.
Qed.

Lemma pipeline_delay_bounded_witness :
  exists tau : R,
    tget 3 [1%nat; 0%nat; 0%nat]
      (topocentric_to_delay 2
         (equatorial_to_topocentric [Some 1] [Some 0] [Some 0] (Some 0))
         (antpos_of [(0, 0, 0); (14.6, 0, 0)]))
    = Some (Some tau)
    /\ tau = geometric_delay (cos_m 1 0 0) (cos_l 1 0 0 0) (cos_n 1 0 0 0) (14.6, 0, 0)
    /\ Rabs tau <= norm3 (14.6, 0, 0) / 299792458.
Proof.
  apply (pipeline_delay_bounded [1] [0] [0] 0 [(0, 0, 0); (14.6, 0, 0)] 1 0 0 0 1 0 (14.6, 0, 0));
    reflexivity.
Defined.

(** ** The two routes to azimuth and zenith angle compared *)




Lemma eq_to_az_za_za (ra dec lst lat : R) :
  fst (eq_to_az_za 0 (Some ra) (Some dec) (Some lst) (Some lat))
  = Some (RPI / 2 - asin (sin_alt_spec ra dec lst lat)).
Proof.
  rewrite eq_to_az_za_unfold; cbn [fst]; unfold alt_spec; f_equal; lra.
Qed.







Lemma sign_zero : sign 0 = 0.
Proof.
  unfold sign; destruct (Rlt_dec 0 0) as [H|_]; [exfalso; lra | reflexivity].
Qed.





(** ** Dependence on the hour angle only *)

Lemma combine_map_l {A A' B : Type} (f : A -> A') (xs : list A) (ys : list B) :
  combine (map f xs) ys = map (fun p => (f (fst p), snd p)) (combine xs ys).
Proof.
  revert ys; induction xs as [|x xs IH]; intros [|y ys]; cbn [map combine]; auto.
  now rewrite IH.
Qed.

(** X7: the cosines depend on right ascension and sidereal time through
    the hour angle only: adding the same angle to every [ra] and every
    [lst] leaves the output of [equatorial_to_topocentric] unchanged. *)
Theorem equatorial_to_topocentric_hour_angle (ra dec lst : list R) (lat delta : R) :
  length ra = length dec ->
  equatorial_to_topocentric (map Some (map (Rplus delta) ra)) (map Some dec)
    (map Some (map (Rplus delta) lst)) (Some lat)
  = equatorial_to_topocentric (map Some ra) (map Some dec) (map Some lst) (Some lat).
Proof.
  intros Hlen.
  rewrite (equatorial_to_topocentric_planes ra dec lst lat Hlen).
  rewrite (equatorial_to_topocentric_planes (map (Rplus delta) ra) dec
             (map (Rplus delta) lst) lat) by (rewrite length_map; exact Hlen).
  rewrite combine_map_l, !map_map.
  repeat match goal with |- _ :: _ = _ :: _ => apply f_equal2 end;
    try reflexivity;
    apply map_ext; intros T; rewrite map_map;
    apply map_ext; intros [a d]; cbn [fst snd];
    replace (delta + a - (delta + T)) with (a - T) by ring; reflexivity.
Qed.

Lemma equatorial_to_topocentric_hour_angle_witness :
  equatorial_to_topocentric (map Some (map (Rplus 1) [0])) (map Some [0])
    (map Some (map (Rplus 1) [0])) (Some 0)
  = equatorial_to_topocentric (map Some [0]) (map Some [0]) (map Some [0]) (Some 0).
Proof.
  apply (equatorial_to_topocentric_hour_angle [0] [0] [0] 0 1); reflexivity.
Defined.

(** ** Baselines *)

Lemma fsub_dot_step (a1 a2 c d1 d2 : scalar) :
  fadd (fmul (fsub a1 a2) c) (fsub d1 d2)
  = fsub (fadd (fmul a1 c) d1) (fadd (fmul a2 c) d2).
Proof. destruct a1, a2, c, d1, d2; cbn; try reflexivity; f_equal; ring. Qed.

Lemma fdiv_fsub (x y c : scalar) :
  fdiv (fsub x y) c = fsub (fdiv x c) (fdiv y c).
Proof.
  destruct x as [a|], y as [b|], c as [k|]; cbn; try reflexivity;
    try (destruct (Req_EM_T k 0); reflexivity).
  destruct (Req_EM_T k 0); cbn; [reflexivity|].
  f_equal; unfold Rdiv; ring.
Qed.

Lemma dot_sub (r1 r2 b : list scalar) :
  length r1 = length r2 ->
  dot (map2 fsub r1 r2) b = fsub (dot r1 b) (dot r2 b).
Proof.
  revert r2 b; induction r1 as [|a1 r1 IH]; intros [|a2 r2] b Hlen;
    try discriminate Hlen.
  - cbn; f_equal; ring.
  - destruct b as [|c b]; [cbn; f_equal; ring|].
    cbn [map2 dot]; rewrite IH by (cbn in Hlen; congruence).
    apply fsub_dot_step.
Qed.

Lemma map2_diag {A D : Type} (f : A -> A -> D) (xs : list A) :
  map2 f xs xs = map (fun x => f x x) xs.
Proof. induction xs as [|x xs IH]; cbn [map2 map]; [reflexivity | now rewrite IH]. Qed.

Lemma contract_sub (n : nat) (r1 r2 : list scalar) (b : list (tensor scalar n)) :
  length r1 = length r2 ->
  contract n (map2 fsub r1 r2) b = tmap2 n fsub (contract n r1 b) (contract n r2 b).
Proof.
  intros Hlen; revert b; induction n as [|n IH]; intros b; cbn [contract].
  - apply dot_sub; exact Hlen.
  - rewrite tmap2_S, map2_map_both, map2_diag.
    apply map_ext; intros c; apply IH.
Qed.

Lemma map2_ext_Forall2 {A B D : Type} (P : A -> B -> Prop) (f g : A -> B -> D)
  (xs : list A) (ys : list B) :
  Forall2 P xs ys -> (forall x y, P x y -> f x y = g x y) -> map2 f xs ys = map2 g xs ys.
Proof.
  intros HF Hfg; induction HF as [|x y xs ys Hxy _ IH]; cbn [map2]; [reflexivity|].
  now rewrite (Hfg x y Hxy), IH.
Qed.

Lemma tensordot_sub (n : nat) (a1 a2 : tensor scalar 2) (b : tensor scalar (S n)) :
  Forall2 (fun r1 r2 : list scalar => length r1 = length r2) a1 a2 ->
  tensordot_1_0 0 n (tsub 2 a1 a2) b
  = tsub (S n) (tensordot_1_0 0 n a1 b) (tensordot_1_0 0 n a2 b).
Proof.
  intros HF; unfold tensordot_1_0, tsub.
  cbn [contract_last axis0_to_last Nat.add].
  rewrite (tmap2_S 1), (tmap2_S n), !map_map, map_map2, map2_map_both.
  apply (map2_ext_Forall2 _ _ _ _ _ HF); intros r1 r2 Hlen.
  apply (contract_sub n r1 r2 b Hlen).
Qed.

Lemma tdivs_sub (n : nat) (x y : tensor scalar n) (c : scalar) :
  tdivs n (tsub n x y) c = tsub n (tdivs n x c) (tdivs n y c).
Proof.
  unfold tdivs, tsub; rewrite tmap_tmap2, tmap2_tmap.
  apply tmap2_ext; intros u v; apply fdiv_fsub.
Qed.

(** X8: the delay of a baseline is the difference of the delays of its
    two antennas: for antenna arrays of the same shape, both delay
    functions map the difference of the positions to the difference of
    the delays, at every rank. *)
Theorem delay_of_baseline (n : nat) (antpos1 antpos2 : tensor scalar 2) :
  Forall2 (fun r1 r2 : list scalar => length r1 = length r2) antpos1 antpos2 ->
  (forall topo_cosines : tensor scalar (S n),
      topocentric_to_delay n topo_cosines (tsub 2 antpos1 antpos2)
      = tsub (S n) (topocentric_to_delay n topo_cosines antpos1)
                   (topocentric_to_delay n topo_cosines antpos2))
  /\ (forall az za : tensor scalar n,
         az_za_to_delay n az za (tsub 2 antpos1 antpos2)
         = tsub (S n) (az_za_to_delay n az za antpos1) (az_za_to_delay n az za antpos2)).
Proof.
  intros HF; split; intros; unfold topocentric_to_delay, az_za_to_delay; cbv zeta;
    rewrite (tensordot_sub n _ _ _ HF); apply tdivs_sub.
Qed.

Lemma delay_of_baseline_witness :
  (forall topo_cosines : tensor scalar 1,
      topocentric_to_delay 0 topo_cosines
        (tsub 2 (antpos_of [(14.6, 0, 0)]) (antpos_of [(0, 14.6, 0)]))
      = tsub 1 (topocentric_to_delay 0 topo_cosines (antpos_of [(14.6, 0, 0)]))
               (topocentric_to_delay 0 topo_cosines (antpos_of [(0, 14.6, 0)])))
  /\ (forall az za : tensor scalar 0,
         az_za_to_delay 0 az za (tsub 2 (antpos_of [(14.6, 0, 0)]) (antpos_of [(0, 14.6, 0)]))
         = tsub 1 (az_za_to_delay 0 az za (antpos_of [(14.6, 0, 0)]))
                  (az_za_to_delay 0 az za (antpos_of [(0, 14.6, 0)]))).
Proof.
  apply (delay_of_baseline 0 (antpos_of [(14.6, 0, 0)]) (antpos_of [(0, 14.6, 0)])).
  repeat constructor.
Defined.

(** ** Beyond the horizon clip *)

(** X9: when [l^2 + m^2 >= 1] the round trip through azimuth and zenith
    angle does not give back the direction it started from: the delays of
    [az_za_to_delay] are those of the horizontal unit vector
    [(m / r, l / r, 0)], [r = sqrt (l^2 + m^2)]. *)
Theorem round_trip_clipped_to_horizon (l m : R) (pts : list (R * R * R)) :
  1 <= l ^ 2 + m ^ 2 ->
  az_za_to_delay 0 (fst (topocentric_to_az_za 0 (Some l) (Some m)))
    (snd (topocentric_to_az_za 0 (Some l) (Some m))) (antpos_of pts)
  = map Some
      (map (geometric_delay (m / sqrt (l ^ 2 + m ^ 2)) (l / sqrt (l ^ 2 + m ^ 2)) 0) pts).
Proof.
  intros Hge.
  rewrite topocentric_to_az_za_0; cbn [fst snd].
  rewrite az_za_to_delay_0.
  assert (Hn : n_clip l m = 0).
  { unfold n_clip; cbv zeta.
    destruct (Rlt_dec (l ^ 2 + m ^ 2) 1); [exfalso; lra | reflexivity]. }
  rewrite Hn, asin_0, Rminus_0_r, sin_PI2, cos_PI2, sin_neg, cos_neg.
  destruct (atan2_polar m l) as [Hc Hs].
  replace (l * l + m * m) with (l ^ 2 + m ^ 2) in Hc, Hs by ring.
  assert (Hr : 0 < sqrt (l ^ 2 + m ^ 2)) by (apply sqrt_lt_R0; lra).
  replace (- - sin (atan2 m l) * 1) with (m / sqrt (l ^ 2 + m ^ 2))
    by (rewrite <- Hs at 1; field; lra).
  replace (cos (atan2 m l) * 1) with (l / sqrt (l ^ 2 + m ^ 2))
    by (rewrite <- Hc at 1; field; lra).
  reflexivity.
Qed.

Lemma round_trip_clipped_to_horizon_witness :
  az_za_to_delay 0 (fst (topocentric_to_az_za 0 (Some 3) (Some 4)))
    (snd (topocentric_to_az_za 0 (Some 3) (Some 4))) (antpos_of [(14.6, 0, 0)])
  = map Some
      (map (geometric_delay (4 / sqrt (3 ^ 2 + 4 ^ 2)) (3 / sqrt (3 ^ 2 + 4 ^ 2)) 0)
         [(14.6, 0, 0)]).
Proof.
  apply (round_trip_clipped_to_horizon 3 4 [(14.6, 0, 0)]); lra.
Defined.

(** ** Ranges of the legacy route *)

Lemma eq_to_az_za_no_azimuth (ra dec lst lat : R) :
  cos lat * cos (alt_spec ra dec lst lat) = 0 ->
  snd (eq_to_az_za 0 (Some ra) (Some dec) (Some lst) (Some lat)) = None.
Proof.
  intros E; rewrite eq_to_az_za_unfold; cbn [snd].
  unfold fdiv at 2.
  destruct (Req_EM_T (cos lat * cos (alt_spec ra dec lst lat)) 0) as [_|NE];
    [|contradiction].
  cbn [facos]; destruct (fsign _); reflexivity.
Qed.

Lemma sign_cases (x : R) : sign x = 1 \/ sign x = -1 \/ sign x = 0.
Proof.
  unfold sign; destruct (Rlt_dec 0 x); [left; reflexivity|].
  destruct (Rlt_dec x 0); [right; left | right; right]; reflexivity.
Qed.

(** X10: whatever finite angles [eq_to_az_za] returns are in range: the
    zenith angle in [0, PI] and the azimuth in [-PI, PI]. *)
Theorem eq_to_az_za_ranges (ra dec lst lat za az : R) :
  eq_to_az_za 0 (Some ra) (Some dec) (Some lst) (Some lat) = (Some za, Some az) ->
  0 <= za <= RPI /\ - RPI <= az <= RPI.
Proof.
  intros H.
  pose proof (f_equal fst H) as Hza; pose proof (f_equal snd H) as Haz.
  cbn [fst snd] in Hza, Haz.
  rewrite eq_to_az_za_za in Hza; injection Hza as <-.
  pose proof (asin_bound (sin_alt_spec ra dec lst lat)) as Hb.
  split; [lra|].
  destruct (Req_EM_T (cos lat * cos (alt_spec ra dec lst lat)) 0) as [E|NE].
  - rewrite (eq_to_az_za_no_azimuth ra dec lst lat E) in Haz; discriminate.
  - rewrite eq_to_az_za_defined in Haz
      by (intros E; apply NE; rewrite E; ring).
    cbn [snd] in Haz; injection Haz as <-.
    unfold legacy_az.
    pose proof (acos_bound (cos_az_spec ra dec lst lat)) as Ha.
    destruct (sign_cases (asin (sin_az_spec ra dec lst lat))) as [E|[E|E]];
      rewrite E; lra.
Qed.

Lemma eq_to_az_za_ranges_witness :
  0 <= legacy_za 0 0 (RPI / 2) 0 <= RPI /\ - RPI <= legacy_az 0 0 (RPI / 2) 0 <= RPI.
Proof.
  apply (eq_to_az_za_ranges 0 0 (RPI / 2) 0).
  apply eq_to_az_za_defined.
  - unfold alt_spec, sin_alt_spec.
    rewrite sin_0, cos_0, Rminus_0_r, cos_PI2.
    replace (0 * 0 + 1 * 1 * 0) with 0 by ring.
    rewrite asin_0, cos_0; lra.
  - rewrite cos_0; lra.
Defined.

(** ** Batches are processed element by element *)

(** X11: at every rank, the azimuth and zenith angle that
    [topocentric_to_az_za] stores at an index are the ones it computes for
    the two input elements at that index alone. *)
Theorem topocentric_to_az_za_pointwise (n : nat) (idx : list nat)
  (l m : tensor scalar n) (x y : scalar) :
  tget n idx l = Some x -> tget n idx m = Some y ->
  tget n idx (fst (topocentric_to_az_za n l m)) = Some (fst (topocentric_to_az_za 0 x y))
  /\ tget n idx (snd (topocentric_to_az_za n l m)) = Some (snd (topocentric_to_az_za 0 x y)).
Proof.
  intros Hl Hm.
  rewrite topocentric_to_az_za_elementwise; cbn [fst snd].
  rewrite !tget_tmap2; change (tensor scalar 0) with scalar.
  rewrite Hl, Hm; split; reflexivity.
Qed.

Lemma topocentric_to_az_za_pointwise_witness :
  tget 1 [1%nat] (fst (topocentric_to_az_za 1 [Some 0; Some 1] [Some 0; None]))
  = Some (fst (topocentric_to_az_za 0 (Some 1) None))
  /\ tget 1 [1%nat] (snd (topocentric_to_az_za 1 [Some 0; Some 1] [Some 0; None]))
     = Some (snd (topocentric_to_az_za 0 (Some 1) None)).
Proof.
  apply (topocentric_to_az_za_pointwise 1 [1%nat] [Some 0; Some 1] [Some 0; None]);
    reflexivity.
Defined.

(** ** Inputs that are not numbers *)

Lemma equatorial_to_topocentric_entries (ra dec lst : list scalar) (lat : scalar) :
  length ra = length dec ->
  let e := fun p : scalar * scalar =>
             [ fmul (fcos (fst p)) (fcos (snd p));
               fmul (fcos (snd p)) (fsin (fst p));
               fsin (snd p) ] in
  equatorial_to_topocentric ra dec lst lat
  = [ map (fun T => map (fun p => dot [fneg (fsin T); fcos T; Some 0] (e p))
                        (combine ra dec)) lst;
      map (fun T => map (fun p => dot [ fmul (fneg (fsin lat)) (fcos T);
                                        fmul (fneg (fsin lat)) (fsin T);
                                        fmul (fcos lat) (Some 1) ] (e p))
                        (combine ra dec)) lst;
      map (fun T => map (fun p => dot [ fmul (fcos lat) (fcos T);
                                        fmul (fcos lat) (fsin T);
                                        fmul (fsin lat) (Some 1) ] (e p))
                        (combine ra dec)) lst ].
Proof.
  intros Hlen e.
  unfold equatorial_to_topocentric, tensordot_1_0, tf_stack, tmul, tneg, smul,
    tf_cos, tf_sin, tf_zeros_like, tf_ones_like.
  cbn [tmap tmap2 contract_last contract axis0_to_last map Nat.add tensor].
  rewrite !map_map.
  rewrite (map2_map_combine fmul fcos fcos).
  rewrite (map2_map_combine_swap fmul fsin fcos).
  rewrite (map_snd_combine fsin ra dec Hlen).
  rewrite !transpose3_map, !map_map.
  repeat match goal with |- _ :: _ = _ :: _ => apply f_equal2 end;
    try reflexivity;
    apply map_ext; intros T; rewrite map_map; reflexivity.
Qed.

Lemma dot_nan_head (r : scalar) (rs es : list scalar) : dot (r :: rs) (None :: es) = None.
Proof. destruct r; reflexivity. Qed.

(** X12: a source whose right ascension or declination is not a number
    gets cosines that are not numbers, in all three components and at
    every time. *)
Theorem nan_source_gives_nan_cosines (ra dec lst : list scalar) (lat : scalar)
  (i t s : nat) (T a d : scalar) :
  length ra = length dec ->
  (i < 3)%nat ->
  nth_error lst t = Some T -> nth_error ra s = Some a -> nth_error dec s = Some d ->
  a = None \/ d = None ->
  tget 3 [i; t; s] (equatorial_to_topocentric ra dec lst lat) = Some None.
Proof.
  intros Hlen Hi Ht Hra Hdec Hnan.
  pose proof (nth_error_combine ra dec s a d Hra Hdec) as Hs.
  rewrite (equatorial_to_topocentric_entries ra dec lst lat Hlen); cbv zeta.
  assert (He : fmul (fcos a) (fcos d) = None)
    by (destruct Hnan as [-> | ->]; [reflexivity | destruct a; reflexivity]).
  destruct i as [|[|[|i]]]; [| | | exfalso; inversion Hi as [|? H1]; inversion H1 as [|? H2];
                                    inversion H2 as [|? H3]; inversion H3];
    rewrite (tget_cons 2); cbn [nth_error];
    rewrite (tget_cons 1), nth_error_map, Ht; cbn [option_map];
    rewrite (tget_cons 0), nth_error_map, Hs; cbn [option_map fst snd tget];
    rewrite He, dot_nan_head; reflexivity.
Qed.

Lemma nan_source_gives_nan_cosines_witness :
  tget 3 [1%nat; 0%nat; 1%nat]
    (equatorial_to_topocentric [Some 0; None] [Some 0; Some 0] [Some 0] (Some 0))
  = Some None.
Proof.
  apply (nan_source_gives_nan_cosines [Some 0; None] [Some 0; Some 0] [Some 0] (Some 0)
           1 0 1 (Some 0) None (Some 0)); try reflexivity.
  - repeat constructor.
  - left; reflexivity.
Defined.

(** X13: when [l] or [m] is not a finite number the comparison
    [lsqr < 1] is false, the clip selects [n = 0], and the zenith angle
    returned is [PI/2]: a bad input is reported as a source on the horizon,
    not as a zenith angle that is not a number. *)
Theorem topocentric_to_az_za_masks_nan (l m : scalar) :
  l = None \/ m = None ->
  snd (topocentric_to_az_za 0 l m) = Some (RPI / 2).
Proof.
  intros Hnan.
  assert (Hlsqr : fadd (fsqr l) (fsqr m) = None)
    by (destruct Hnan as [-> | ->]; [reflexivity | destruct l; reflexivity]).
  unfold topocentric_to_az_za, tadd, tsqr, tf_where, tlts, tf_sqrt, ssub, tf_asin, PI.
  cbn [tmap tmap2 snd]; rewrite Hlsqr; cbn [flt fsub lift2 fsqrt].
  rewrite fdiv_nz by lra.
  unfold fasin; rewrite in_unit_true by lra.
  cbn [fsub lift2]; rewrite asin_0; f_equal; lra.
Qed.

Lemma topocentric_to_az_za_masks_nan_witness :
  snd (topocentric_to_az_za 0 None (Some 0)) = Some (RPI / 2).
Proof.
  apply (topocentric_to_az_za_masks_nan None (Some 0)); left; reflexivity.
Defined.

(** * The legacy route, at every rank *)





